(** * oahumap/proj: coordinate projection (Winkel Tripel, Lambert Conformal
      Conic, conversion facade) -- shallow embedding and verification.

    Go's [float64] is IEEE-754 binary64: it is modelled by Rocq's primitive
    floats, whose [+ - * /], [sqrt], [abs] and comparisons are the IEEE
    operations (a comparison with NaN is [false], as in Go).  The products
    and sums are modelled unfused, as the Go compiler emits them on amd64.

    The transcendental functions of Go's [math] package (Sin, Cos, Acos, ...)
    are not part of the repository: the code is parameterised by a record
    [Libm] that supplies them.  Likewise the packages [support] and [core]
    of the repository are not among the source files: what the code uses
    of them is taken as a parameter ([SupportPkg], [CorePkg]); of package
    [merror] only the two error kinds the code raises are needed. *)

From Stdlib Require Import Floats ZArith List String Bool Lia.
Import ListNotations.

Set Warnings "-inexact-float".

Local Open Scope float_scope.

(** ** Results and errors *)

(** The kinds of [merror] the source files use. *)
Inductive merror_kind : Type :=
| ToleranceCondition
| InvalidArg.

(** A Go [error] value: [merror.New(kind, msg)], [merror.New(kind)],
    [fmt.Errorf(msg)], or an error produced by code outside the source
    files (identified by its text). *)
Inductive error : Type :=
| MError (kind : merror_kind) (msg : option string)
| Errorf (msg : string)
| External (msg : string).

(** A Go result pair [(v, err)]: either a value or a non-nil error. *)
Inductive result (A : Type) : Type :=
| Ok (a : A)
| Err (e : error).
Arguments Ok {A} a.
Arguments Err {A} e.

Definition is_ok {A} (r : result A) : bool :=
  match r with Ok _ => true | Err _ => false end.

(** ** The part of Go's [math] package that is plain IEEE arithmetic *)

Module GoMath.

(** [math.Pi] rounded to float64. *)
Definition Pi : float := 0x1.921fb54442d18p+1.

Definition IsNaN (x : float) : bool := negb (x =? x).

Definition IsInf (x : float) (sign : Z) : bool :=
  match sign with
  | Zpos _ => x =? infinity
  | Zneg _ => x =? neg_infinity
  | Z0 => (x =? infinity) || (x =? neg_infinity)
  end.


(** [math.Signbit]; Rocq has a single NaN, taken as positive. *)
Definition Signbit (x : float) : bool :=
  match classify x with
  | NInf | NNormal | NSubn | NZero => true
  | _ => false
  end.

Definition Abs (x : float) : float := abs x.

(** [math.Max], with its special cases for infinities, NaN and signed
    zeros. *)
Definition Max (x y : float) : float :=
  if IsInf x 1 || IsInf y 1 then infinity
  else if IsNaN x || IsNaN y then nan
  else if (x =? 0) && (x =? y) then (if Signbit x then y else x)
  else if y <? x then x else y.

(** [math.Min]. *)
Definition Min (x y : float) : float :=
  if IsInf x (-1) || IsInf y (-1) then neg_infinity
  else if IsNaN x || IsNaN y then nan
  else if (x =? 0) && (x =? y) then (if Signbit x then x else y)
  else if x <? y then x else y.

(** [math.Copysign f sign]: the magnitude of [f] with the sign of [sign]. *)
Definition Copysign (f sign : float) : float :=
  if Signbit sign then - (abs f) else abs f.

Definition Sqrt (x : float) : float := PrimFloat.sqrt x.

End GoMath.
Import GoMath.

(** The transcendental functions of Go's [math] package used by the
    projections. *)
Record Libm : Type := {
  Sin : float -> float;
  Cos : float -> float;
  Acos : float -> float;
  Atan : float -> float;
  Atan2 : float -> float -> float;
  Pow : float -> float -> float;
  Log : float -> float;
}.

(** ** Package [core]: coordinates, ellipsoid, system *)

(** [core.CoordLP]: longitude [Lam] and latitude [Phi], radians. *)
Record CoordLP : Type := { Lam : float; Phi : float }.

(** [core.CoordXY]. *)
Record CoordXY : Type := { X : float; Y : float }.

(** [core.Ellipsoid]: the fields the projections read or write. *)
Record Ellipsoid : Type := { E : float; Es : float }.

(** [core.System] over a parameter-set type [PS] ([support.ProjString]). *)
Record System (PS : Type) : Type := {
  ProjString : PS;
  SysEllipsoid : Ellipsoid;
}.
Arguments ProjString {PS} s.
Arguments SysEllipsoid {PS} s.

(** common.go *)
Definition tol7 : float := 1e-7.
Definition tol10 : float := 1.0e-10.
Definition eps7 : float := 1.0e-7.
Definition eps10 : float := 1e-10.

(** Package [support]: the parameter set and the helper formulas, none of
    which is among the source files. *)
Record SupportPkg : Type := {
  PS : Type;
  NewProjString : string -> result PS;
  GetAsString : PS -> string -> string * bool;
  GetAsFloat : PS -> string -> float * bool;
  DDToR : float -> float;
  RToDD : float -> float;
  Tsfn : float -> float -> float -> float;
  Msfn : float -> float -> float -> float;
}.

(** ** operations/Wintri.go *)

Module Wintri.

Definition maxIter : nat := 30.
Definition tolerance : float := 1e-14.

Definition jacobian_msg : string :=
  "Jacobian determinant too small in Winkel Tripel inverse"%string.

(** What one pass through the body of the [for range maxIter] loop does. *)
Inductive outcome : Type :=
| Break                              (* [break]: convergence test met *)
| Continue (phi lam : float)         (* next iteration with this estimate *)
| Return (e : error).                (* [return nil, err] *)

Section WithMath.

Variable M : Libm.
Variable Sup : SupportPkg.

(** [type Wintri struct]: the embedded [core.Operation] holds the system;
    [lat1] is the standard parallel, [cosLat1] its cosine. *)
Record Wintri : Type := {
  OpSystem : System (PS Sup);
  lat1 : float;
  cosLat1 : float;
}.

(** The Aitoff half of the forward formula: [x2], [y2]. *)
Definition aitoff (lon lat : float) : float * float :=
  let cosLat := Cos M lat in
  let cosHalfLon := Cos M (lon * 0.5) in
  let alpha := Acos M (cosLat * cosHalfLon) in
  if alpha <? eps10 then (lon, lat)
  else
    let sinAlpha := Sin M alpha in
    if sinAlpha <? eps10 then (0.0, 0.0)
    else
      let factor := alpha / sinAlpha in
      (2.0 * cosLat * Sin M (lon * 0.5) * factor, Sin M lat * factor).

(** [func (op *Wintri) Forward]. *)
Definition Forward (op : Wintri) (lp : CoordLP) : result CoordXY :=
  let lat := Phi lp in
  let lon := Lam lp in
  let x1 := lon * cosLat1 op in
  let y1 := lat in
  let '(x2, y2) := aitoff lon lat in
  Ok {| X := 0.5 * (x1 + x2); Y := 0.5 * (y1 + y2) |}.

(** The clamp of [phi], written twice in the source (seed and step). *)
Definition clampPhi (phi : float) : float :=
  if Pi * 0.5 <? phi then Pi * 0.5
  else if phi <? - Pi * 0.5 then - Pi * 0.5
  else phi.

(** The clamp of the seed longitude. *)
Definition clampLam (lam : float) : float :=
  if Pi <? lam then Pi
  else if lam <? - Pi then - Pi
  else lam.

(** [for lam > math.Pi { lam -= 2 * math.Pi }].  The loop need not stop
    (a large [lam] absorbs the subtraction): [None] when [fuel] passes
    of the body were not enough. *)
Fixpoint wrapDown (fuel : nat) (lam : float) : option float :=
  if Pi <? lam then
    match fuel with
    | O => None
    | S fuel' => wrapDown fuel' (lam - 2 * Pi)
    end
  else Some lam.

(** [for lam < -math.Pi { lam += 2 * math.Pi }]. *)
Fixpoint wrapUp (fuel : nat) (lam : float) : option float :=
  if lam <? - Pi then
    match fuel with
    | O => None
    | S fuel' => wrapUp fuel' (lam + 2 * Pi)
    end
  else Some lam.

Definition wrapLam (fuel : nat) (lam : float) : option float :=
  match wrapDown fuel lam with
  | Some lam' => wrapUp fuel lam'
  | None => None
  end.

(** Residual of the forward image of the estimate against the target. *)
Definition converged (dx dy : float) : bool :=
  (Abs dx <? tolerance) && (Abs dy <? tolerance).

Definition diverged (dx dy : float) : bool :=
  (10 <? Abs dx) || (10 <? Abs dy).

Definition stepDelta (phi lam : float) : float :=
  Max 1e-8 (Min 1e-6 (Max (Abs phi) (Abs lam) * 1e-8)).

(** The finite-difference Jacobian at the estimate, given the forward
    images at the estimate and at the two perturbed points. *)
Record jacobian : Type := {
  dxdPhi : float; dydPhi : float; dxdLam : float; dydLam : float }.

Definition jacobianOf (delta : float) (t t1 t2 : CoordXY) : jacobian :=
  {| dxdPhi := (X t1 - X t) / delta;
     dydPhi := (Y t1 - Y t) / delta;
     dxdLam := (X t2 - X t) / delta;
     dydLam := (Y t2 - Y t) / delta |}.

Definition det (j : jacobian) : float :=
  dxdPhi j * dydLam j - dydPhi j * dxdLam j.

(** The damped Newton update followed by the re-clamp and the wrap. *)
Definition newton (fuel : nat) (j : jacobian) (dx dy phi lam : float)
  : option outcome :=
  let dphi := (dydLam j * dx - dxdLam j * dy) / det j in
  let dlam := (dxdPhi j * dy - dydPhi j * dx) / det j in
  let damping :=
    if (0.1 <? Abs dphi) || (0.1 <? Abs dlam) then 0.5 else 1.0 in
  let phi' := clampPhi (phi - damping * dphi) in
  match wrapLam fuel (lam - damping * dlam) with
  | Some lam' => Some (Continue phi' lam')
  | None => None
  end.

(** One pass through the loop body for the target [(x, y)] at the
    estimate [(phi, lam)]. *)
Definition body (fuel : nat) (op : Wintri) (x y phi lam : float)
  : option outcome :=
  match Forward op {| Lam := lam; Phi := phi |} with
  | Err err => Some (Return err)
  | Ok testXY =>
    let dx := X testXY - x in
    let dy := Y testXY - y in
    if converged dx dy then Some Break
    else if diverged dx dy then
      Some (Continue (y * 0.9) (x * 0.9 / cosLat1 op))
    else
      let delta := stepDelta phi lam in
      match Forward op {| Lam := lam; Phi := phi + delta |} with
      | Err _ => Some (Continue phi lam)      (* delta *= 0.5; continue *)
      | Ok testXY1 =>
        match Forward op {| Lam := lam + delta; Phi := phi |} with
        | Err _ => Some (Continue phi lam)    (* delta *= 0.5; continue *)
        | Ok testXY2 =>
          let j := jacobianOf delta testXY testXY1 testXY2 in
          if Abs (det j) <? 1e-15 then
            Some (Return (MError ToleranceCondition (Some jacobian_msg)))
          else newton fuel j dx dy phi lam
        end
      end
  end.

(** [for range maxIter { body }] followed by [return &lp, nil]. *)
Fixpoint loop (n : nat) (fuel : nat) (op : Wintri) (x y phi lam : float)
  : option (result CoordLP) :=
  match n with
  | O => Some (Ok {| Lam := lam; Phi := phi |})
  | S n' =>
    match body fuel op x y phi lam with
    | None => None
    | Some Break => Some (Ok {| Lam := lam; Phi := phi |})
    | Some (Continue phi' lam') => loop n' fuel op x y phi' lam'
    | Some (Return e) => Some (Err e)
    end
  end.

(** The seed: the linear approximation, clamped. *)
Definition seedPhi (xy : CoordXY) : float := clampPhi (Y xy).
Definition seedLam (op : Wintri) (xy : CoordXY) : float :=
  clampLam (X xy / cosLat1 op).

(** [func (op *Wintri) Inverse].  [None]: one of the wrap loops did not
    finish within [fuel] passes. *)
Definition Inverse (fuel : nat) (op : Wintri) (xy : CoordXY)
  : option (result CoordLP) :=
  loop maxIter fuel op (X xy) (Y xy) (seedPhi xy) (seedLam op xy).

(** The coordinate that [Forward] computes. *)
Definition forwardXY (op : Wintri) (lp : CoordLP) : CoordXY :=
  let '(x2, y2) := aitoff (Lam lp) (Phi lp) in
  {| X := 0.5 * (Lam lp * cosLat1 op + x2); Y := 0.5 * (Phi lp + y2) |}.

(** The residual of the estimate [(phi, lam)] against the target. *)
Definition residual (op : Wintri) (x y phi lam : float) : float * float :=
  let t := forwardXY op {| Lam := lam; Phi := phi |} in
  (X t - x, Y t - y).

(** The finite-difference Jacobian the loop body forms at [(phi, lam)]. *)
Definition jacobianAt (op : Wintri) (phi lam : float) : jacobian :=
  let delta := stepDelta phi lam in
  jacobianOf delta
    (forwardXY op {| Lam := lam; Phi := phi |})
    (forwardXY op {| Lam := lam; Phi := phi + delta |})
    (forwardXY op {| Lam := lam + delta; Phi := phi |}).

(** The estimate at the start of pass [k + 1]: the first [k] passes of the
    loop all ended in [continue]. *)
Fixpoint estimateAfter (k : nat) (fuel : nat) (op : Wintri)
  (x y phi lam : float) : option (float * float) :=
  match k with
  | O => Some (phi, lam)
  | S k' =>
    match body fuel op x y phi lam with
    | Some (Continue phi' lam') => estimateAfter k' fuel op x y phi' lam'
    | _ => None
    end
  end.

(** The estimates of [Inverse] for the target [xy]. *)
Definition estimate (k : nat) (fuel : nat) (op : Wintri) (xy : CoordXY)
  : option (float * float) :=
  estimateAfter k fuel op (X xy) (Y xy) (seedPhi xy) (seedLam op xy).

(** [func (op *Wintri) wintriSetup]: the system it writes to is returned
    next to the operation. *)
Definition setEs {P} (sys : System P) (es : float) : System P :=
  {| ProjString := ProjString sys;
     SysEllipsoid := {| E := E (SysEllipsoid sys); Es := es |} |}.

Definition wintriSetup (system : System (PS Sup))
  : System (PS Sup) * result Wintri :=
  let system := setEs system 0.0 in
  let lat1 := Acos M (2.0 / Pi) in
  let lat1 :=
    match GetAsFloat Sup (ProjString system) "lat_1" with
    | (val, true) => DDToR Sup val
    | (_, false) => lat1
    end in
  let cosLat1 := Cos M lat1 in
  let '(lat1, cosLat1) :=
    if Pi * 0.5 <? Abs lat1 then
      let lat1 := Copysign (Pi * 0.5) lat1 in (lat1, Cos M lat1)
    else (lat1, cosLat1) in
  (system, Ok {| OpSystem := system; lat1 := lat1; cosLat1 := cosLat1 |}).

(** The standard parallel before the clamp: the parameter [lat_1] in
    radians, or [acos (2/pi)] when it is absent. *)
Definition requestedLat1 (system : System (PS Sup)) : float :=
  match GetAsFloat Sup (ProjString system) "lat_1" with
  | (val, true) => DDToR Sup val
  | (_, false) => Acos M (2.0 / Pi)
  end.

(** [func NewWintri]. *)
Definition NewWintri (system : System (PS Sup))
  : System (PS Sup) * result Wintri :=
  match wintriSetup system with
  | (system', Err err) => (system', Err err)
  | (system', Ok op) => (system', Ok op)
  end.

End WithMath.

Arguments OpSystem {Sup} w.
Arguments lat1 {Sup} w.
Arguments cosLat1 {Sup} w.
Arguments Forward M {Sup} op lp.
Arguments forwardXY M {Sup} op lp.
Arguments residual M {Sup} op x y phi lam.
Arguments jacobianAt M {Sup} op phi lam.
Arguments body M {Sup} fuel op x y phi lam.
Arguments loop M {Sup} n fuel op x y phi lam.
Arguments estimateAfter M {Sup} k fuel op x y phi lam.
Arguments estimate M {Sup} k fuel op xy.
Arguments seedLam {Sup} op xy.
Arguments Inverse M {Sup} fuel op xy.

End Wintri.

(** ** operations/LCC (Lambert Conformal Conic) *)

Module LCC.

Definition LCCIterationEpsilon : float := 1e-18.

Section WithMath.

Variable M : Libm.
Variable Sup : SupportPkg.

(** [type LCC struct]. *)
Record LCC : Type := {
  OpSystem : System (PS Sup);
  n : float;        (* scale factor of the cone *)
  F : float;        (* cone constant *)
  rho0 : float;     (* radius at the origin parallel *)
  lambda0 : float;  (* longitude of origin *)
  phi0 : float;     (* latitude of origin *)
  phi1 : float;     (* first standard parallel *)
  phi2 : float;     (* second standard parallel *)
  x0 : float;       (* offset X *)
  y0 : float;       (* offset Y *)
}.

(** [op.System.Ellipsoid.E]. *)
Definition ecc (op : LCC) : float := E (SysEllipsoid (OpSystem op)).

(** [func (op *LCC) Forward]. *)
Definition Forward (op : LCC) (lp : CoordLP) : result CoordXY :=
  let t := Tsfn Sup (Phi lp) (Sin M (Phi lp)) (ecc op) in
  let rho := F op * Pow M t (n op) in
  Ok {| X := rho * Sin M (n op * Lam lp);
        Y := rho0 op - rho * Cos M (n op * Lam lp) |}.

(** The latitude-correction recurrence: the next estimate from [lat]. *)
Definition latNext (op : LCC) (tPrime lat : float) : float :=
  Pi / 2.0 -
  2 * Atan M (tPrime *
              Pow M ((1.0 - ecc op * Sin M lat) / (1.0 + ecc op * Sin M lat))
                    (ecc op / 2.0)).

(** [for range k { latNew := ...; if |latNew-lat| < eps { lat = latNew;
    break }; lat = latNew }]: the value of [lat] after the loop. *)
Fixpoint latLoop (k : nat) (op : LCC) (tPrime lat : float) : float :=
  match k with
  | O => lat
  | S k' =>
    let latNew := latNext op tPrime lat in
    if Abs (latNew - lat) <? LCCIterationEpsilon then latNew
    else latLoop k' op tPrime latNew
  end.

Definition tPrimeOf (op : LCC) (xy : CoordXY) : float :=
  let deltaE := X xy in
  let deltaN := rho0 op - Y xy in
  let rPrime := Sqrt (deltaE * deltaE + deltaN * deltaN) in
  let rPrime := if n op <? 0 then - rPrime else rPrime in
  Pow M (rPrime / F op) (1.0 / n op).

(** The seed of the latitude iteration. *)
Definition latSeed (tPrime : float) : float :=
  Pi / 2.0 - 2 * Atan M tPrime.

(** [func (op *LCC) Inverse]. *)
Definition Inverse (op : LCC) (xy : CoordXY) : result CoordLP :=
  let deltaE := X xy in
  let deltaN := rho0 op - Y xy in
  let tPrime := tPrimeOf op xy in
  let thetaPrime := Atan2 M deltaE deltaN in
  let lon := thetaPrime / n op - lambda0 op in
  let lat := latLoop 10 op tPrime (latSeed tPrime) in
  Ok {| Lam := lon; Phi := lat |}.

(** The latitude estimates as the spec describes them: the seed, then
    the recurrence applied [k] times. *)
Fixpoint latSeq (op : LCC) (tPrime : float) (k : nat) : float :=
  match k with
  | O => latSeed tPrime
  | S k' => latNext op tPrime (latSeq op tPrime k')
  end.

(** Estimates [k] and [k + 1] differ by less than 1e-18. *)
Definition closeAt (op : LCC) (tPrime : float) (k : nat) : bool :=
  Abs (latSeq op tPrime (S k) - latSeq op tPrime k) <? 1e-18.

(** The operation with another longitude of origin. *)
Definition withLambda0 (op : LCC) (l : float) : LCC :=
  {| OpSystem := OpSystem op; n := n op; F := F op; rho0 := rho0 op;
     lambda0 := l; phi0 := phi0 op; phi1 := phi1 op; phi2 := phi2 op;
     x0 := x0 op; y0 := y0 op |}.

(** [Inverse] applied to what [Forward] returns. *)
Definition roundTrip (op : LCC) (lp : CoordLP) : result CoordLP :=
  match Forward op lp with
  | Ok xy => Inverse op xy
  | Err e => Err e
  end.

(** [func (op *LCC) lccSetup], followed by [NewLCC]'s wrapping. *)
Definition lccSetup (system : System (PS Sup)) : result LCC :=
  let get := GetAsFloat Sup (ProjString system) in
  match get "lat_0"%string with
  | (_, false) => Err (MError InvalidArg None)
  | (phi0, true) =>
  match get "lat_1"%string with
  | (_, false) => Err (MError InvalidArg None)
  | (phi1, true) =>
  let phi2 := match get "lat_2"%string with
              | (v, true) => v | (_, false) => phi1 end in
  match get "lon_0"%string with
  | (_, false) => Err (MError InvalidArg None)
  | (lambda0, true) =>
  let x0 := match get "x_0"%string with
            | (v, true) => v | (_, false) => 0.0 end in
  let y0 := match get "y_0"%string with
            | (v, true) => v | (_, false) => 0.0 end in
  let phi0 := DDToR Sup phi0 in
  let phi1 := DDToR Sup phi1 in
  let phi2 := DDToR Sup phi2 in
  let lambda0 := DDToR Sup lambda0 in
  let PE := SysEllipsoid system in
  let m1 := Msfn Sup (Sin M phi1) (Cos M phi1) (Es PE) in
  let t1 := Tsfn Sup phi1 (Sin M phi1) (E PE) in
  let m2 := Msfn Sup (Sin M phi2) (Cos M phi2) (Es PE) in
  let t2 := Tsfn Sup phi2 (Sin M phi2) (E PE) in
  let n := Log M (m1 / m2) / Log M (t1 / t2) in
  let F := m1 / (n * Pow M t1 n) in
  let t0 := Tsfn Sup phi0 (Sin M phi0) (E PE) in
  let rho0 := F * Pow M t0 n in
  Ok {| OpSystem := system; n := n; F := F; rho0 := rho0;
        lambda0 := lambda0; phi0 := phi0; phi1 := phi1; phi2 := phi2;
        x0 := x0; y0 := y0 |}
  end end end.

Definition NewLCC (system : System (PS Sup)) : result LCC :=
  match lccSetup system with
  | Err err => Err err
  | Ok op => Ok op
  end.

End WithMath.

Arguments OpSystem {Sup} l.
Arguments n {Sup} l.
Arguments F {Sup} l.
Arguments rho0 {Sup} l.
Arguments lambda0 {Sup} l.
Arguments phi0 {Sup} l.
Arguments phi1 {Sup} l.
Arguments phi2 {Sup} l.
Arguments x0 {Sup} l.
Arguments y0 {Sup} l.
Arguments ecc {Sup} op.
Arguments Forward M {Sup} op lp.
Arguments latNext M {Sup} op tPrime lat.
Arguments latLoop M {Sup} k op tPrime lat.
Arguments tPrimeOf M {Sup} op xy.
Arguments Inverse M {Sup} op xy.
Arguments latSeq M {Sup} op tPrime k.
Arguments closeAt M {Sup} op tPrime k.
Arguments withLambda0 {Sup} op l.
Arguments roundTrip M {Sup} op lp.

End LCC.

(** ** The conversion facade (package [proj]) *)

Module Facade.

(** A call into code outside the source files either returns a Go result
    or does not return ([None]). *)
Definition call (A : Type) : Type := option (result A).

(** [core.IConvertLPToXY]: the two methods of a resolved operation. *)
Record IConvertLPToXY : Type := {
  cForward : CoordLP -> call CoordXY;
  cInverse : CoordXY -> call CoordLP;
}.

(** [core.IOperation]: [GetDescription().IsConvertLPToXY()] and the
    operation seen through the type assertion [opx.(core.IConvertLPToXY)]. *)
Record IOperation : Type := {
  IsConvertLPToXY : bool;
  asConvertLPToXY : IConvertLPToXY;
}.

(** Package [core]: [NewSystem]. *)
Record CorePkg (Sup : SupportPkg) : Type := {
  NewSystem : PS Sup -> result (System (PS Sup) * IOperation);
}.
Arguments NewSystem {Sup} c ps.

Definition errNotInitialized : error :=
  Errorf "conversion not initialized".
Definition errNotSupportedType : error :=
  Errorf "projection type is not supported".
(** The two errors for an odd-length array ([InvalidArgumentCount]). *)
Definition errOddLonLat : error :=
  Errorf "input array of lon/lat values must be an even number".
Definition errOddXY : error :=
  Errorf "input array of x/y values must be an even number".

Section WithPackages.

Variable Sup : SupportPkg.
Variable Core : CorePkg Sup.

(** [type conversion struct]; [converter] may be nil. *)
Record conversion : Type := {
  projString : PS Sup;
  system : System (PS Sup);
  operation : IOperation;
  converter : option IConvertLPToXY;
}.

(** [func isGeographicSystem]. *)
Definition isGeographicSystem (proj4 : string) : bool :=
  match NewProjString Sup proj4 with
  | Err _ => false
  | Ok ps =>
    let proj := fst (GetAsString Sup ps "proj") in
    String.eqb proj "longlat" || String.eqb proj "latlong" ||
    String.eqb proj "latlon" || String.eqb proj "lonlat"
  end.

(** [func newConversion]. *)
Definition newConversion (proj4 : string) : result conversion :=
  match NewProjString Sup proj4 with
  | Err err => Err err
  | Ok ps =>
    match NewSystem Core ps with
    | Err err => Err err
    | Ok (sys, opx) =>
      if negb (IsConvertLPToXY opx) then Err errNotSupportedType
      else Ok {| projString := ps; system := sys; operation := opx;
                 converter := Some (asConvertLPToXY opx) |}
    end
  end.

(** The loop of [convert] over the pairs of [input], whose length is
    even; the output is built in input order. *)
Fixpoint convertPairs (c : IConvertLPToXY) (input : list float)
  : call (list float) :=
  match input with
  | lon :: lat :: rest =>
    match cForward c {| Lam := DDToR Sup lon; Phi := DDToR Sup lat |} with
    | None => None
    | Some (Err err) => Some (Err err)
    | Some (Ok xy) =>
      match convertPairs c rest with
      | Some (Ok out) => Some (Ok (X xy :: Y xy :: out))
      | other => other
      end
    end
  | _ => Some (Ok [])
  end.

(** [func (conv *conversion) convert]. *)
Definition convert (conv : conversion) (input : list float)
  : call (list float) :=
  match converter conv with
  | None => Some (Err errNotInitialized)
  | Some c =>
    if Nat.odd (List.length input) then Some (Err errOddLonLat)
    else convertPairs c input
  end.

Fixpoint inversePairs (c : IConvertLPToXY) (input : list float)
  : call (list float) :=
  match input with
  | x :: y :: rest =>
    match cInverse c {| X := x; Y := y |} with
    | None => None
    | Some (Err err) => Some (Err err)
    | Some (Ok lp) =>
      match inversePairs c rest with
      | Some (Ok out) =>
        Some (Ok (RToDD Sup (Lam lp) :: RToDD Sup (Phi lp) :: out))
      | other => other
      end
    end
  | _ => Some (Ok [])
  end.

(** [func (conv *conversion) inverse]. *)
Definition inverse (conv : conversion) (input : list float)
  : call (list float) :=
  match converter conv with
  | None => Some (Err errNotInitialized)
  | Some c =>
    if Nat.odd (List.length input) then Some (Err errOddXY)
    else inversePairs c input
  end.

(** [func Convert]. *)
Definition Convert (proj4 : string) (input : list float)
  : call (list float) :=
  if isGeographicSystem proj4 then Some (Ok input)
  else
    match newConversion proj4 with
    | Err err => Some (Err err)
    | Ok conv => convert conv input
    end.

(** [func Inverse]. *)
Definition Inverse (proj4 : string) (input : list float)
  : call (list float) :=
  match newConversion proj4 with
  | Err err => Some (Err err)
  | Ok conv => inverse conv input
  end.

End WithPackages.

End Facade.

(** ** A reference implementation of the [math] functions

    Used to evaluate the projections at concrete inputs.  Each function is
    computed in exact integer arithmetic (fixed point with 128 fractional
    bits, the argument of the trigonometric functions reduced against pi
    known to 1400 bits) and rounded once to the nearest float64.  Go's own
    functions agree with these to within a few units in the last place;
    they are not the same bit for bit. *)

Module RefMath.
Local Open Scope Z_scope.

(** Fixed-point numbers: the integer [z] stands for [z / 2^F]. *)
Definition F : Z := 128.
Definition one : Z := Eval vm_compute in 2 ^ F.
(** Fractional bits of the constant pi used to reduce arguments. *)
Definition P : Z := 1400.

(** A finite float as sign, mantissa and exponent: [x = +-m * 2^e]. *)
Definition decode (x : float) : option (bool * Z * Z) :=
  match Prim2SF x with
  | S754_zero s => Some (s, 0, 0)
  | S754_finite s m e => Some (s, Zpos m, e)
  | _ => None
  end.

(** The float nearest to [z * 2^e]. *)
Definition encode (z e : Z) : float :=
  SF2Prim (binary_normalize prec emax z e false).

Definition signed (s : bool) (z : Z) : Z := if s then - z else z.

Definition mulF (a b : Z) : Z := Z.shiftr (a * b) F.
Definition divF (a b : Z) : Z := (a * one) / b.

(** [t_0 + t_1 + ...] with [t_(k+1) = t_k * q / den (k+1)]. *)
Fixpoint facSeries (n : nat) (q : Z) (den : Z -> Z) (k : Z) (t acc : Z) : Z :=
  match n with
  | O => acc
  | S n' =>
    let t' := mulF t q / den k in
    facSeries n' q den (k + 1) t' (acc + t')
  end.

(** [p_0 / 1 + p_1 / 3 + p_2 / 5 + ...] with [p_(k+1) = p_k * q]. *)
Fixpoint oddSeries (n : nat) (q : Z) (k : Z) (p acc : Z) : Z :=
  match n with
  | O => acc
  | S n' => oddSeries n' q (k + 2) (mulF p q) (acc + p / k)
  end.

(** [atan (1/x) * 2^p] for an integer [x >= 2], by the Gregory series. *)
Fixpoint atanInvLoop (n : nat) (x2 k pw acc : Z) : Z :=
  match n with
  | O => acc
  | S n' => atanInvLoop n' x2 (k + 2) (- (pw / x2)) (acc + pw / k)
  end.
Definition atanInv (p x : Z) (n : nat) : Z :=
  atanInvLoop n (x * x) 1 (2 ^ p / x) 0.

(** [pi * 2^P] by Machin's formula, and [pi * 2^F]. *)
Definition piP : Z :=
  Eval vm_compute in
    (4 * (4 * atanInv (P + 16) 5 320 - atanInv (P + 16) 239 100)) / 2 ^ 16.
Definition piF : Z := Eval vm_compute in Z.shiftr piP (P - F).

Definition sinFix (r : Z) : Z :=
  facSeries 40 (- mulF r r) (fun k => (2 * k) * (2 * k + 1)) 1 r r.
Definition cosFix (r : Z) : Z :=
  facSeries 40 (- mulF r r) (fun k => (2 * k - 1) * (2 * k)) 1 one one.
Definition expFix (r : Z) : Z :=
  facSeries 40 r (fun k => k) 1 one one.

(** [m * 2^e] modulo [2 pi], in [0, 2 pi), as a fixed-point number: for a
    mantissa of 53 bits, [p] bits of pi leave an error below [2^-(F+64)]. *)
Definition reduce (m e : Z) : Z :=
  let p := F + 64 + Z.max 0 (e + 53) in
  let twoPi := Z.shiftr piP (P - p - 1) in
  Z.shiftr (Z.shiftl m (e + p) mod twoPi) (p - F).

(** Below [2^-30] the sine, tangent and arc tangent round to their
    argument. *)
Definition small (x : float) : bool := (abs x <? 0x1p-30)%float.

Definition Sin (x : float) : float :=
  if small x then x else
  match decode x with
  | Some (s, m, e) => encode (signed s (sinFix (reduce m e))) (- F)
  | None => nan
  end.

Definition Cos (x : float) : float :=
  match decode x with
  | Some (s, m, e) => encode (cosFix (reduce m e)) (- F)
  | None => nan
  end.

Definition Tan (x : float) : float :=
  if small x then x else
  match decode x with
  | Some (s, m, e) =>
    let r := reduce m e in
    encode (signed s (divF (sinFix r) (cosFix r))) (- F)
  | None => nan
  end.

(** [atan t] for a fixed-point [t] in [0, 1]: the angle is halved three
    times, then the Gregory series is summed. *)
Definition halve (t : Z) : Z := divF t (one + Z.sqrt (one * one + t * t)).
Definition atanSmall (t : Z) : Z :=
  let u := halve (halve (halve t)) in
  8 * oddSeries 24 (- mulF u u) 1 u 0.

(** [atan (n / d)] for integers [0 <= n] and [0 < d]. *)
Definition atanFrac (n d : Z) : Z :=
  if n <=? d then atanSmall ((n * one) / d)
  else piF / 2 - atanSmall ((d * one) / n).

Definition Atan (x : float) : float :=
  if small x then x else
  match Prim2SF x with
  | S754_finite s m e =>
    let a := if 0 <=? e then atanFrac (Zpos m * 2 ^ e) 1
             else atanFrac (Zpos m) (2 ^ (- e)) in
    encode (signed s a) (- F)
  | S754_infinity s => encode (signed s (piF / 2)) (- F)
  | _ => nan
  end.

(** [math.Atan2]: Go's own case analysis around [Atan (y / x)]. *)
Definition Atan2 (y x : float) : float :=
  if GoMath.IsNaN x || GoMath.IsNaN y then nan
  else if (y =? 0)%float then
    (if (0 <=? x)%float && negb (GoMath.Signbit x)
     then GoMath.Copysign 0 y else GoMath.Copysign GoMath.Pi y)
  else if (x =? 0)%float then GoMath.Copysign (GoMath.Pi / 2) y
  else if GoMath.IsInf x 0 then
    (if GoMath.IsInf x 1 then
       (if GoMath.IsInf y 0 then GoMath.Copysign (GoMath.Pi / 4) y
        else GoMath.Copysign 0 y)
     else
       (if GoMath.IsInf y 0 then GoMath.Copysign (3 * GoMath.Pi / 4) y
        else GoMath.Copysign GoMath.Pi y))
  else if GoMath.IsInf y 0 then GoMath.Copysign (GoMath.Pi / 2) y
  else
    let q := Atan (y / x) in
    if (x <? 0)%float then
      (if (q <=? 0)%float then (q + GoMath.Pi)%float
       else (q - GoMath.Pi)%float)
    else q.

(** A finite float of magnitude at most 1 as a fixed-point number. *)
Definition toFix (s : bool) (m e : Z) : Z :=
  signed s (Z.shiftl m (e + F)).

(** [acos x = 2 atan (sqrt (1 - x^2) / (1 + x))]. *)
Definition Acos (x : float) : float :=
  if (1 <? abs x)%float then nan else
  match decode x with
  | Some (s, m, e) =>
    let v := toFix s m e in
    if v =? - one then encode piF (- F)
    else encode (2 * atanFrac (Z.sqrt ((one - v) * (one + v))) (one + v))
                (- F)
  | None => nan
  end.

Definition ln2F : Z :=
  Eval vm_compute in
    2 * oddSeries 50 (mulF (one / 3) (one / 3)) 1 (one / 3) 0.

(** [ln (m * 2^e)] for [m > 0], by [ln u = 2 atanh ((u - 1) / (u + 1))]. *)
Definition logFix (m e : Z) : Z :=
  let b := Z.log2 m in
  let mant := Z.shiftl m (F - b) in
  let z := divF (mant - one) (mant + one) in
  (e + b) * ln2F + 2 * oddSeries 70 (mulF z z) 1 z 0.

Definition Log (x : float) : float :=
  match Prim2SF x with
  | S754_finite false m e => encode (logFix (Zpos m) e) (- F)
  | S754_zero _ => neg_infinity
  | S754_infinity false => infinity
  | _ => nan
  end.

(** [exp] of a fixed-point number, rounded to a float. *)
Definition expRound (y : Z) : float :=
  if 2000 * one <? y then infinity
  else if y <? - (2000 * one) then 0%float
  else
    let k := y / ln2F in
    encode (expFix (y - k * ln2F)) (k - F).

Definition isInt (y : float) : bool :=
  match Prim2SF y with
  | S754_zero _ => true
  | S754_finite _ m e => (0 <=? e) || (Zpos m mod 2 ^ (- e) =? 0)
  | _ => false
  end.

Definition isOdd (y : float) : bool :=
  match Prim2SF y with
  | S754_finite _ m e =>
    if 0 <? e then false
    else (Zpos m mod 2 ^ (- e) =? 0) && Z.odd (Zpos m / 2 ^ (- e))
  | _ => false
  end.

(** [x^y] for a finite [x = mx * 2^ex > 0] and a finite [y]. *)
Definition powPos (mx ex : Z) (sy : bool) (my ey : Z) : float :=
  let l := logFix mx ex in
  let yl := Z.shiftl (my * l) ey in
  if (0 <=? ey) && (2000 <? Z.log2 (Z.abs (my * l) + 1) + ey - F) then
    (if Bool.eqb sy (l <? 0) then infinity else 0%float)
  else expRound (signed sy yl).

(** [math.Pow] with its documented special cases. *)
Definition Pow (x y : float) : float :=
  if (y =? 0)%float then 1%float
  else if (x =? 1)%float then 1%float
  else if (y =? 1)%float then x
  else
  match Prim2SF x, Prim2SF y with
  | S754_nan, _ | _, S754_nan => nan
  | S754_finite false mx ex, S754_finite sy my ey =>
    powPos (Zpos mx) ex sy (Zpos my) ey
  | S754_finite true mx ex, S754_finite sy my ey =>
    if isInt y then
      let r := powPos (Zpos mx) ex sy (Zpos my) ey in
      if isOdd y then (- r)%float else r
    else nan
  | S754_zero s, S754_finite sy my ey =>
    if sy then (if s && isOdd y then neg_infinity else infinity)
    else (if s && isOdd y then (-0)%float else 0%float)
  | S754_zero _, S754_infinity sy => if sy then infinity else 0%float
  | S754_finite _ _ _, S754_infinity sy =>
    if (abs x =? 1)%float then 1%float
    else if Bool.eqb sy (abs x <? 1)%float then infinity else 0%float
  | S754_infinity false, _ => if (0 <? y)%float then infinity else 0%float
  | S754_infinity true, _ =>
    if (0 <? y)%float then (if isOdd y then neg_infinity else infinity)
    else (if isOdd y then (-0)%float else 0%float)
  | _, _ => nan
  end.

End RefMath.

Definition RefLibm : Libm :=
  {| Sin := RefMath.Sin; Cos := RefMath.Cos;
     Acos := RefMath.Acos; Atan := RefMath.Atan; Atan2 := RefMath.Atan2;
     Pow := RefMath.Pow; Log := RefMath.Log |}.

(** ** A reference environment for the packages outside the source files

    Used to evaluate the facade and the constructors at concrete inputs. *)

Module RefEnv.

Import Ascii.

Definition isSpace (c : ascii) : bool :=
  Ascii.eqb c " " || Ascii.eqb c (ascii_of_nat 9) ||
  Ascii.eqb c (ascii_of_nat 10).

(** The whitespace-separated tokens of a definition string. *)
Fixpoint tokens (cs cur : list ascii) : list (list ascii) :=
  match cs with
  | [] => match cur with [] => [] | _ => [rev cur] end
  | c :: cs' =>
    if isSpace c then
      match cur with
      | [] => tokens cs' []
      | _ => rev cur :: tokens cs' []
      end
    else tokens cs' (c :: cur)
  end.

Fixpoint dropPlus (cs : list ascii) : list ascii :=
  match cs with
  | c :: cs' => if Ascii.eqb c "+" then dropPlus cs' else cs
  | [] => []
  end.

(** [key=value] split at the first [=]; a bare key has an empty value. *)
Fixpoint splitEq (cs key : list ascii) : string * string :=
  match cs with
  | [] => (string_of_list_ascii (rev key), EmptyString)
  | c :: cs' =>
    if Ascii.eqb c "=" then
      (string_of_list_ascii (rev key), string_of_list_ascii cs')
    else splitEq cs' (c :: key)
  end.

Definition ParameterSet : Type := list (string * string).

Definition errMalformedParameter : error := External "MalformedParameter".
Definition errUnsupportedProjection : error :=
  External "UnsupportedProjection".

Fixpoint parseTokens (ts : list (list ascii)) : result ParameterSet :=
  match ts with
  | [] => Ok []
  | t :: ts' =>
    match dropPlus t with
    | [] => Err errMalformedParameter
    | body =>
      match parseTokens ts' with
      | Ok ps => Ok (splitEq body [] :: ps)
      | Err e => Err e
      end
    end
  end.

(** Modelled from the spec: the parameter parser of package [support]
    (section 4.1), which is not among the source files: tokens separated
    by whitespace, a leading [+] dropped, [key] or [key=value], a token
    left empty is a [MalformedParameter]. *)
Definition parseProjString (text : string) : result ParameterSet :=
  parseTokens (tokens (list_ascii_of_string text) []).

(** The value of the last binding of [key]. *)
Fixpoint lookup (key : string) (ps : ParameterSet) : option string :=
  match ps with
  | [] => None
  | (k, v) :: ps' =>
    match lookup key ps' with
    | Some v' => Some v'
    | None => if String.eqb k key then Some v else None
    end
  end.

Definition getAsString (ps : ParameterSet) (key : string) : string * bool :=
  match lookup key ps with
  | Some v => (v, true)
  | None => (EmptyString, false)
  end.

Definition digit (c : ascii) : option Z :=
  let k := nat_of_ascii c in
  if (48 <=? k)%nat && (k <=? 57)%nat then Some (Z.of_nat (k - 48))
  else None.

(** The leading decimal digits of [cs] appended to [acc]: the value, the
    number of digits read, and the rest. *)
Fixpoint readDigits (cs : list ascii) (acc k : Z) : Z * Z * list ascii :=
  match cs with
  | c :: cs' =>
    match digit c with
    | Some d => readDigits cs' (10 * acc + d)%Z (k + 1)%Z
    | None => (acc, k, cs)
    end
  | [] => (acc, k, [])
  end.

Definition ofZ (z : Z) : float := RefMath.encode z 0.

(** A decimal numeral [[+-]digits[.digits]] as the nearest float. *)
Definition parseFloat (s : string) : option float :=
  let cs := list_ascii_of_string s in
  let '(neg, cs) :=
    match cs with
    | c :: r =>
      if Ascii.eqb c "-" then (true, r)
      else if Ascii.eqb c "+" then (false, r) else (false, cs)
    | [] => (false, cs)
    end in
  let sign (x : float) := if neg then - x else x in
  let '(ip, ni, rest) := readDigits cs 0%Z 0%Z in
  match rest with
  | [] => if (ni =? 0)%Z then None else Some (sign (ofZ ip))
  | c :: r =>
    if Ascii.eqb c "." then
      let '(fp, nf, rest') := readDigits r ip 0%Z in
      match rest' with
      | [] =>
        if (ni + nf =? 0)%Z then None
        else Some (sign (ofZ fp / ofZ (10 ^ nf)))
      | _ => None
      end
    else None
  end.

(** A value that is not a number is reported as absent. *)
Definition getAsFloat (ps : ParameterSet) (key : string) : float * bool :=
  match lookup key ps with
  | Some v =>
    match parseFloat v with
    | Some x => (x, true)
    | None => (0, false)
    end
  | None => (0, false)
  end.

Definition ddToR (deg : float) : float := deg * Pi / 180.0.
Definition rToDD (r : float) : float := r * 180.0 / Pi.

(** The isometric-latitude function [t] and the function [m] of the
    conic projections, in their usual closed forms. *)
Definition tsfn (phi sinphi e : float) : float :=
  let sinphi := sinphi * e in
  let denominator := 1.0 + sinphi in
  if denominator =? 0.0 then 0x1.fffffffffffffp+1023
  else RefMath.Tan (0.5 * (Pi / 2 - phi)) /
       RefMath.Pow ((1.0 - sinphi) / denominator) (0.5 * e).

Definition msfn (sinphi cosphi es : float) : float :=
  cosphi / Sqrt (1.0 - es * sinphi * sinphi).

Definition RefSup : SupportPkg :=
  {| PS := ParameterSet;
     NewProjString := parseProjString;
     GetAsString := getAsString;
     GetAsFloat := getAsFloat;
     DDToR := ddToR; RToDD := rToDD;
     Tsfn := tsfn; Msfn := msfn |}.

(** Modelled from the spec: the ellipsoid model (section 4.2), which is
    not among the source files: a named ellipsoid, else [a] and [b], else
    [a] and the inverse flattening [rf], else [a] alone (a sphere), else
    [InvalidArg]; [es = 1 - (b/a)^2] and [e = sqrt es]. *)
Definition ellipsoidOfAxes (a b : float) : Ellipsoid :=
  let es := 1 - (b / a) * (b / a) in
  {| E := Sqrt es; Es := es |}.

Definition ellipsoidOfRf (a rf : float) : Ellipsoid :=
  ellipsoidOfAxes a (a * (1 - 1 / rf)).

Definition buildEllipsoid (ps : ParameterSet) : result Ellipsoid :=
  let name :=
    match lookup "ellps" ps with
    | Some s => s
    | None => match lookup "datum" ps with Some s => s | None => EmptyString end
    end in
  if String.eqb name "GRS80" then Ok (ellipsoidOfRf 6378137 298.257222101)
  else if String.eqb name "WGS84" then
    Ok (ellipsoidOfRf 6378137 298.257223563)
  else
    match getAsFloat ps "a", getAsFloat ps "b", getAsFloat ps "rf" with
    | (a, true), (b, true), _ => Ok (ellipsoidOfAxes a b)
    | (a, true), _, (rf, true) => Ok (ellipsoidOfRf a rf)
    | (a, true), _, _ => Ok {| E := 0; Es := 0 |}
    | _, _, _ => Err (MError InvalidArg None)
    end.

(** Passes granted to each wrap loop of the Winkel Tripel inverse when it
    is run through the registry. *)
Definition wrapFuel : nat := 64.

Definition wintriOperation (op : Wintri.Wintri RefSup) : Facade.IOperation :=
  {| Facade.IsConvertLPToXY := true;
     Facade.asConvertLPToXY :=
       {| Facade.cForward := fun lp => Some (Wintri.Forward RefLibm op lp);
          Facade.cInverse := fun xy => Wintri.Inverse RefLibm wrapFuel op xy |} |}.

Definition lccOperation (op : LCC.LCC RefSup) : Facade.IOperation :=
  {| Facade.IsConvertLPToXY := true;
     Facade.asConvertLPToXY :=
       {| Facade.cForward := fun lp => Some (LCC.Forward RefLibm op lp);
          Facade.cInverse := fun xy => Some (LCC.Inverse RefLibm op xy) |} |}.

(** Modelled from the spec: system construction (section 4.4) and the
    registry (section 4.3) of package [core], which are not among the
    source files: the family named by [proj] is looked up among the
    registered ones (the two that the source files register), the
    ellipsoid is built, and the family's constructor is run. *)
Definition newSystem (ps : ParameterSet)
  : result (System ParameterSet * Facade.IOperation) :=
  match getAsString ps "proj" with
  | (_, false) => Err errUnsupportedProjection
  | (name, true) =>
    if String.eqb name "wintri" || String.eqb name "lcc" then
      match buildEllipsoid ps with
      | Err e => Err e
      | Ok ell =>
        let sys := {| ProjString := ps; SysEllipsoid := ell |} in
        if String.eqb name "wintri" then
          match Wintri.NewWintri RefLibm RefSup sys with
          | (sys', Ok op) => Ok (sys', wintriOperation op)
          | (_, Err e) => Err e
          end
        else
          match LCC.NewLCC RefLibm RefSup sys with
          | Ok op => Ok (sys, lccOperation op)
          | Err e => Err e
          end
      end
    else Err errUnsupportedProjection
  end.

Definition RefCore : Facade.CorePkg RefSup :=
  Facade.Build_CorePkg RefSup newSystem.

End RefEnv.

(** ** Concrete operations and inputs, evaluated in the reference
       environment *)

Module Samples.

Import RefEnv.
Local Open Scope string_scope.

(** A system whose parameters are [ps], on a sphere. *)
Definition sphereSystem (ps : ParameterSet) : System (PS RefSup) :=
  {| ProjString := ps; SysEllipsoid := {| E := 0; Es := 0 |} |}.

(** [NewWintri] for [+proj=wintri], no [lat_1]. *)
Definition wintriDefault : Wintri.Wintri RefSup :=
  {| Wintri.OpSystem := sphereSystem [("proj", "wintri")];
     Wintri.lat1 := 0.8806892354203566;
     Wintri.cosLat1 := 0.63661977236758138 |}.

(** [NewWintri] for [+proj=wintri +lat_1=90]. *)
Definition wintriPolar : Wintri.Wintri RefSup :=
  {| Wintri.OpSystem := sphereSystem [("proj", "wintri"); ("lat_1", "90")];
     Wintri.lat1 := 1.5707963267948966;
     Wintri.cosLat1 := 6.123233995736766e-17 |}.

(** A finite latitude within 3e-17 of a multiple of 2 pi. *)
Definition hugeLat : float := 0x1.61a3db8c8d129p+1023.

(** The definition of the round-trip scenario with a longitude of origin
    of 10 degrees. *)
Definition lccLon10 : string :=
  "+proj=lcc +ellps=GRS80 +lat_0=0 +lon_0=10 +lat_1=0.5 +lat_2=2".

(** The definitions of the literal scenario, with the first standard
    parallel of the test data (0.5) and of the spec (0). *)
Definition lccHalf : string :=
  "+proj=lcc +ellps=GRS80 +lat_0=0 +lon_0=0 +lat_1=0.5 +lat_2=2".
Definition lccZero : string :=
  "+proj=lcc +ellps=GRS80 +lat_0=0 +lon_0=0 +lat_1=0 +lat_2=2".

(** The semi-major axis of GRS80, in metres. *)
Definition grs80A : float := 6378137.

Definition lccSystem (text : string) : result (System (PS RefSup)) :=
  match parseProjString text with
  | Err e => Err e
  | Ok ps =>
    match buildEllipsoid ps with
    | Err e => Err e
    | Ok ell => Ok {| ProjString := ps; SysEllipsoid := ell |}
    end
  end.

Definition lccOp (text : string) : result (LCC.LCC RefSup) :=
  match lccSystem text with
  | Err e => Err e
  | Ok sys => LCC.NewLCC RefLibm RefSup sys
  end.

(** What [newConversion] builds for [+proj=wintri +a=1]. *)
Definition unitSystem : System (PS RefSup) :=
  sphereSystem [("proj", "wintri"); ("a", "1")].

Definition unitWintri : Wintri.Wintri RefSup :=
  {| Wintri.OpSystem := unitSystem;
     Wintri.lat1 := 0.8806892354203566;
     Wintri.cosLat1 := 0.63661977236758138 |}.

Definition unitConversion : Facade.conversion RefSup :=
  {| Facade.projString := ProjString unitSystem;
     Facade.system := unitSystem;
     Facade.operation := wintriOperation unitWintri;
     Facade.converter :=
       Some (Facade.asConvertLPToXY (wintriOperation unitWintri)) |}.

(** The LCC operation built from [text], and what it maps [lp] to,
    forward and there and back. *)
Definition lccForward (text : string) (lp : CoordLP) : result CoordXY :=
  match lccOp text with
  | Err e => Err e
  | Ok op => LCC.Forward RefLibm op lp
  end.

Definition lccRoundTrip (text : string) (lp : CoordLP) : result CoordLP :=
  match lccOp text with
  | Err e => Err e
  | Ok op => LCC.roundTrip RefLibm op lp
  end.

(** A definition with a single standard parallel ([lat_2] absent), the
    system built from it and what [NewLCC] returns for it. *)
Definition lccSingle : string :=
  "+proj=lcc +ellps=GRS80 +lat_0=0 +lon_0=0 +lat_1=1".

Definition grs80 : Ellipsoid :=
  {| E := 0.08181919104281582; Es := 0.0066943800229007921 |}.

Definition lccSingleSystem : System (PS RefSup) :=
  {| ProjString := [("proj", "lcc"); ("ellps", "GRS80"); ("lat_0", "0");
                    ("lon_0", "0"); ("lat_1", "1")];
     SysEllipsoid := grs80 |}.

Definition lccSingleOp : LCC.LCC RefSup :=
  {| LCC.OpSystem := lccSingleSystem;
     LCC.n := nan; LCC.F := nan; LCC.rho0 := nan;
     LCC.lambda0 := 0; LCC.phi0 := 0;
     LCC.phi1 := 0.017453292519943295; LCC.phi2 := 0.017453292519943295;
     LCC.x0 := 0; LCC.y0 := 0 |}.

(** The system and the operation of [lccHalf]. *)
Definition lccHalfSystem : System (PS RefSup) :=
  {| ProjString := [("proj", "lcc"); ("ellps", "GRS80"); ("lat_0", "0");
                    ("lon_0", "0"); ("lat_1", "0.5"); ("lat_2", "2")];
     SysEllipsoid := grs80 |}.

Definition lccHalfOp : LCC.LCC RefSup :=
  {| LCC.OpSystem := lccHalfSystem;
     LCC.n := 0.021815524735754505; LCC.F := 45.845850839805294;
     LCC.rho0 := 45.845850839805294;
     LCC.lambda0 := 0; LCC.phi0 := 0;
     LCC.phi1 := 0.0087266462599716477; LCC.phi2 := 0.034906585039886591;
     LCC.x0 := 0; LCC.y0 := 0 |}.

End Samples.

(** ** Notions used to state the further properties *)

Module Notions.

(** The latitude is not outside the clamp [[-pi/2, pi/2]]. *)
Definition latClamped (phi : float) : Prop :=
  (Pi * 0.5 <? phi) = false /\ (phi <? - Pi * 0.5) = false.

(** An estimate of the Winkel Tripel inverse for the target [xy] is either
    clamped in latitude and not below [-pi] in longitude, or it is the
    value the divergence reset assigns. *)
Definition clampedOrReset {Sup} (op : Wintri.Wintri Sup) (xy : CoordXY)
  (phi lam : float) : Prop :=
  (latClamped phi /\ (lam <? - Pi) = false) \/
  (phi = Y xy * 0.9 /\ lam = X xy * 0.9 / Wintri.cosLat1 op).

(** The coordinate that [LCC.Forward] computes. *)
Definition lccForwardXY (M : Libm) {Sup} (op : LCC.LCC Sup) (lp : CoordLP)
  : CoordXY :=
  let rho :=
    LCC.F op * Pow M (Tsfn Sup (Phi lp) (Sin M (Phi lp)) (LCC.ecc op))
                 (LCC.n op) in
  {| X := rho * Sin M (LCC.n op * Lam lp);
     Y := LCC.rho0 op - rho * Cos M (LCC.n op * Lam lp) |}.

(** The LCC operation with other false easting and northing. *)
Definition withOffsets {Sup} (op : LCC.LCC Sup) (x y : float)
  : LCC.LCC Sup :=
  {| LCC.OpSystem := LCC.OpSystem op; LCC.n := LCC.n op;
     LCC.F := LCC.F op; LCC.rho0 := LCC.rho0 op;
     LCC.lambda0 := LCC.lambda0 op; LCC.phi0 := LCC.phi0 op;
     LCC.phi1 := LCC.phi1 op; LCC.phi2 := LCC.phi2 op;
     LCC.x0 := x; LCC.y0 := y |}.

(** A numeric parameter of the system: its value and whether it is
    present. *)
Definition param {Sup} (system : System (PS Sup)) (key : string)
  : float * bool :=
  GetAsFloat Sup (ProjString system) key.

(** The three parameters [lccSetup] requires are present. *)
Definition required {Sup} (system : System (PS Sup)) : bool :=
  snd (param system "lat_0") && snd (param system "lat_1") &&
  snd (param system "lon_0").

(** A parameter with a default. *)
Definition paramOr {Sup} (system : System (PS Sup)) (key : string)
  (default : float) : float :=
  if snd (param system key) then fst (param system key) else default.

(** What the facade does with one point: [Convert] turns the degrees
    into radians before the operation's [Forward] and returns the
    projected coordinate as it is; [Inverse] passes the input as it is and
    turns the radians of the operation's [Inverse] into degrees. *)
Definition forwardPair (Sup : SupportPkg) (c : Facade.IConvertLPToXY)
  (u v : float) : Facade.call (list float) :=
  match Facade.cForward c {| Lam := DDToR Sup u; Phi := DDToR Sup v |} with
  | None => None
  | Some (Err e) => Some (Err e)
  | Some (Ok xy) => Some (Ok [X xy; Y xy])
  end.

Definition inversePair (Sup : SupportPkg) (c : Facade.IConvertLPToXY)
  (u v : float) : Facade.call (list float) :=
  match Facade.cInverse c {| X := u; Y := v |} with
  | None => None
  | Some (Err e) => Some (Err e)
  | Some (Ok lp) => Some (Ok [RToDD Sup (Lam lp); RToDD Sup (Phi lp)])
  end.

(** Two batches of points one after the other: the first failure ends
    the whole call, otherwise the outputs are joined in order. *)
Definition andThen (r1 r2 : Facade.call (list float))
  : Facade.call (list float) :=
  match r1 with
  | Some (Ok o1) =>
    match r2 with
    | Some (Ok o2) => Some (Ok (o1 ++ o2))
    | other => other
    end
  | other => other
  end.

End Notions.
(** * Properties of the Winkel Tripel operation *)

Module WintriProps.

Import Wintri.

Section Generic.

Variable M : Libm.
Variable Sup : SupportPkg.
Variable fuel : nat.
Variable op : Wintri Sup.

(** [Forward] always takes its [return &xy, nil]. *)
Lemma Forward_forwardXY (lp : CoordLP) :
  Forward M op lp = Ok (forwardXY M op lp).
Proof.
  unfold Forward, forwardXY.
  destruct (aitoff M (Lam lp) (Phi lp)) as [x2 y2]; reflexivity.
Qed.

(** The body of the loop in terms of the residual and the Jacobian. *)
Lemma body_unfold (x y phi lam : float) :
  body M fuel op x y phi lam =
  let '(dx, dy) := residual M op x y phi lam in
  if converged dx dy then Some Break
  else if diverged dx dy then
    Some (Continue (y * 0.9) (x * 0.9 / cosLat1 op))
  else if Abs (det (jacobianAt M op phi lam)) <? 1e-15 then
    Some (Return (MError ToleranceCondition (Some jacobian_msg)))
  else newton fuel (jacobianAt M op phi lam) dx dy phi lam.
Proof.
  unfold body, residual, jacobianAt.
  rewrite !Forward_forwardXY. reflexivity.
Qed.

Lemma body_converged (x y phi lam : float) :
  converged (fst (residual M op x y phi lam))
            (snd (residual M op x y phi lam)) = true ->
  body M fuel op x y phi lam = Some Break.
Proof.
  intros H. rewrite body_unfold.
  destruct (residual M op x y phi lam) as [dx dy]; simpl in H.
  now rewrite H.
Qed.

Lemma body_diverged (x y phi lam : float) :
  converged (fst (residual M op x y phi lam))
            (snd (residual M op x y phi lam)) = false ->
  diverged (fst (residual M op x y phi lam))
           (snd (residual M op x y phi lam)) = true ->
  body M fuel op x y phi lam =
  Some (Continue (y * 0.9) (x * 0.9 / cosLat1 op)).
Proof.
  intros Hc Hd. rewrite body_unfold.
  destruct (residual M op x y phi lam) as [dx dy]; simpl in Hc, Hd.
  now rewrite Hc, Hd.
Qed.

Lemma body_singular (x y phi lam : float) :
  converged (fst (residual M op x y phi lam))
            (snd (residual M op x y phi lam)) = false ->
  diverged (fst (residual M op x y phi lam))
           (snd (residual M op x y phi lam)) = false ->
  (Abs (det (jacobianAt M op phi lam)) <? 1e-15) = true ->
  body M fuel op x y phi lam =
  Some (Return (MError ToleranceCondition (Some jacobian_msg))).
Proof.
  intros Hc Hd Hj. rewrite body_unfold.
  destruct (residual M op x y phi lam) as [dx dy]; simpl in Hc, Hd.
  now rewrite Hc, Hd, Hj.
Qed.

(** The only error the body can return is the Jacobian one. *)
Lemma body_return (x y phi lam : float) (e : error) :
  body M fuel op x y phi lam = Some (Return e) ->
  e = MError ToleranceCondition (Some jacobian_msg).
Proof.
  rewrite body_unfold.
  destruct (residual M op x y phi lam) as [dx dy].
  destruct (converged dx dy); [discriminate|].
  destruct (diverged dx dy); [discriminate|].
  destruct (Abs (det (jacobianAt M op phi lam)) <? 1e-15).
  - intros H; injection H as <-; reflexivity.
  - unfold newton.
    destruct (wrapLam _ _); discriminate.
Qed.

(** ** The loop *)

Lemma loop_exhausted (x y : float) (n : nat) :
  forall phi lam p l,
    estimateAfter M n fuel op x y phi lam = Some (p, l) ->
    loop M n fuel op x y phi lam = Some (Ok {| Lam := l; Phi := p |}).
Proof.
  induction n as [|n IH]; simpl; intros phi lam p l H.
  - injection H as <- <-; reflexivity.
  - destruct (body M fuel op x y phi lam) as [[| phi' lam' | e]|];
      try discriminate.
    now apply IH.
Qed.

Lemma loop_stops (x y : float) (k : nat) :
  forall n phi lam p l,
    (k < n)%nat ->
    estimateAfter M k fuel op x y phi lam = Some (p, l) ->
    loop M n fuel op x y phi lam =
    match body M fuel op x y p l with
    | Some Break => Some (Ok {| Lam := l; Phi := p |})
    | Some (Return e) => Some (Err e)
    | Some (Continue p' l') =>
        loop M (n - S k) fuel op x y p' l'
    | None => None
    end.
Proof.
  induction k as [|k IH]; intros n phi lam p l Hk H;
    (destruct n as [|n]; [lia|]); simpl in H |- *.
  - injection H as <- <-. rewrite Nat.sub_0_r.
    destruct (body M fuel op x y phi lam) as [[| |]|]; reflexivity.
  - destruct (body M fuel op x y phi lam) as [[| phi' lam' | e]|];
      try discriminate.
    apply IH; [lia | exact H].
Qed.

Lemma loop_inv (x y : float) (n : nat) :
  forall phi lam r,
    loop M n fuel op x y phi lam = Some r ->
    exists k p l,
      (k <= n)%nat /\
      estimateAfter M k fuel op x y phi lam = Some (p, l) /\
      ((k = n /\ r = Ok {| Lam := l; Phi := p |}) \/
       (k < n /\ body M fuel op x y p l = Some Break /\
        r = Ok {| Lam := l; Phi := p |})%nat \/
       (k < n /\ exists e, body M fuel op x y p l = Some (Return e) /\
                           r = Err e)%nat).
Proof.
  induction n as [|n IH]; simpl; intros phi lam r H.
  - injection H as <-. exists 0%nat, phi, lam. simpl. auto.
  - destruct (body M fuel op x y phi lam) as [[| phi' lam' | e]|] eqn:Hb;
      try discriminate.
    + injection H as <-. exists 0%nat, phi, lam. simpl.
      split; [lia|]. split; [reflexivity|]. right; left.
      repeat split; [lia | exact Hb].
    + destruct (IH _ _ _ H) as (k & p & l & Hk & He & Hr).
      exists (S k), p, l. simpl. rewrite Hb.
      split; [lia|]. split; [exact He|].
      destruct Hr as [[-> ->] | [(Hlt & Hbr & ->) | (Hlt & e & Hre & ->)]].
      * left; auto.
      * right; left. repeat split; [lia | exact Hbr].
      * right; right. split; [lia|]. exists e; auto.
    + injection H as <-. exists 0%nat, phi, lam. simpl.
      split; [lia|]. split; [reflexivity|]. right; right.
      split; [lia|]. exists e; auto.
Qed.

Lemma body_break (x y phi lam : float) :
  body M fuel op x y phi lam = Some Break ->
  converged (fst (residual M op x y phi lam))
            (snd (residual M op x y phi lam)) = true.
Proof.
  rewrite body_unfold.
  destruct (residual M op x y phi lam) as [dx dy]; simpl.
  destruct (converged dx dy); [reflexivity|].
  destruct (diverged dx dy); [discriminate|].
  destruct (Abs (det (jacobianAt M op phi lam)) <? 1e-15); [discriminate|].
  unfold newton. destruct (wrapLam _ _); discriminate.
Qed.

(** Once the residual is below the tolerance there is no further
    estimate: the loop has stopped. *)
Lemma estimateAfter_stops (x y : float) (j : nat) :
  forall phi lam p l d,
    estimateAfter M j fuel op x y phi lam = Some (p, l) ->
    converged (fst (residual M op x y p l))
              (snd (residual M op x y p l)) = true ->
    estimateAfter M (S (j + d)) fuel op x y phi lam = None.
Proof.
  induction j as [|j IH]; intros phi lam p l d H Hc.
  - simpl in H. injection H as <- <-.
    simpl. now rewrite (body_converged _ _ _ _ Hc).
  - simpl in H. change (S (S j + d)) with (S (S (j + d))).
    simpl.
    destruct (body M fuel op x y phi lam) as [[| phi' lam' | e]|];
      try discriminate; try reflexivity.
    exact (IH _ _ _ _ d H Hc).
Qed.

(** C6: the Winkel Tripel inverse runs the loop body at most 30 times;
    it stops at the first estimate whose forward image is within 1e-14 of
    the target in both components and returns that estimate; when 30
    passes are used up without the test being met, the last estimate is
    returned without error.  Any result is of one of these kinds, or the
    Jacobian error raised in one of the at most 30 passes. *)
Theorem Inverse_iteration_bound (xy : CoordXY) :
  (forall k phi lam,
      (k < 30)%nat ->
      estimate M k fuel op xy = Some (phi, lam) ->
      converged (fst (residual M op (X xy) (Y xy) phi lam))
                (snd (residual M op (X xy) (Y xy) phi lam)) = true ->
      Inverse M fuel op xy = Some (Ok {| Lam := lam; Phi := phi |}) /\
      forall d, estimate M (S (k + d)) fuel op xy = None) /\
  (forall phi lam,
      estimate M 30 fuel op xy = Some (phi, lam) ->
      Inverse M fuel op xy = Some (Ok {| Lam := lam; Phi := phi |})) /\
  (forall r,
      Inverse M fuel op xy = Some r ->
      exists k phi lam,
        (k <= 30)%nat /\
        estimate M k fuel op xy = Some (phi, lam) /\
        ((k = 30%nat /\ r = Ok {| Lam := lam; Phi := phi |}) \/
         ((k < 30)%nat /\
          converged (fst (residual M op (X xy) (Y xy) phi lam))
                    (snd (residual M op (X xy) (Y xy) phi lam)) = true /\
          r = Ok {| Lam := lam; Phi := phi |}) \/
         ((k < 30)%nat /\
          r = Err (MError ToleranceCondition (Some jacobian_msg))))).
Proof.
  unfold Inverse, estimate, maxIter. repeat split.
  - rewrite (loop_stops _ _ _ _ _ _ _ _ H H0).
    now rewrite (body_converged _ _ _ _ H1).
  - intros d. exact (estimateAfter_stops _ _ _ _ _ _ _ d H0 H1).
  - intros phi lam. apply loop_exhausted.
  - intros r H.
    destruct (loop_inv _ _ _ _ _ _ H) as (k & p & l & Hk & He & Hr).
    exists k, p, l. split; [exact Hk|]. split; [exact He|].
    destruct Hr as [[-> ->] | [(Hlt & Hb & ->) | (Hlt & e & Hb & ->)]].
    + left; auto.
    + right; left. repeat split; [exact Hlt | exact (body_break _ _ _ _ Hb)].
    + right; right. split; [exact Hlt|].
      now rewrite (body_return _ _ _ _ _ Hb).
Qed.

(** C7: when a pass of the loop (one of the 30) forms the finite-difference
    Jacobian -- the residual is neither below the tolerance nor above the
    divergence threshold -- and the magnitude of its determinant is below
    1e-15, [Inverse] fails with [ToleranceCondition]. *)
Theorem Inverse_singular_jacobian (xy : CoordXY) (k : nat) (phi lam : float) :
  (k < 30)%nat ->
  estimate M k fuel op xy = Some (phi, lam) ->
  converged (fst (residual M op (X xy) (Y xy) phi lam))
            (snd (residual M op (X xy) (Y xy) phi lam)) = false ->
  diverged (fst (residual M op (X xy) (Y xy) phi lam))
           (snd (residual M op (X xy) (Y xy) phi lam)) = false ->
  (Abs (det (jacobianAt M op phi lam)) <? 1e-15) = true ->
  Inverse M fuel op xy =
  Some (Err (MError ToleranceCondition (Some jacobian_msg))).
Proof.
  intros Hk He Hc Hd Hj. unfold Inverse, estimate, maxIter in *.
  rewrite (loop_stops _ _ _ _ _ _ _ _ Hk He).
  now rewrite (body_singular _ _ _ _ Hc Hd Hj).
Qed.

(** C3 (what the code does instead): when the thirtieth pass takes the
    divergence reset, [Inverse] returns 0.9 times the unclamped seed,
    neither clamped nor wrapped, and without error. *)
Theorem Inverse_reset_unclamped (xy : CoordXY) (phi lam : float) :
  estimate M 29 fuel op xy = Some (phi, lam) ->
  converged (fst (residual M op (X xy) (Y xy) phi lam))
            (snd (residual M op (X xy) (Y xy) phi lam)) = false ->
  diverged (fst (residual M op (X xy) (Y xy) phi lam))
           (snd (residual M op (X xy) (Y xy) phi lam)) = true ->
  Inverse M fuel op xy =
  Some (Ok {| Lam := X xy * 0.9 / cosLat1 op; Phi := Y xy * 0.9 |}).
Proof.
  intros He Hc Hd. unfold Inverse, estimate, maxIter in *.
  rewrite (loop_stops _ _ 29%nat 30%nat _ _ _ _ (Nat.lt_succ_diag_r 29) He).
  now rewrite (body_diverged _ _ _ _ Hc Hd).
Qed.


(** In the branch [alpha < eps10] the sum [lat + lat] overflows for the
    finite latitude [hugeLat], whatever the library, as soon as the
    cosine of that latitude is 1. *)
Lemma forwardXY_overflow :
  Cos M Samples.hugeLat = 1 -> Cos M 0 = 1 -> (Acos M 1 <? eps10) = true ->
  Y (forwardXY M op {| Lam := 0; Phi := Samples.hugeLat |}) = infinity.
Proof.
  intros Hc H0 Ha. unfold forwardXY, aitoff; cbn [Lam Phi].
  change (0 * 0.5) with 0. rewrite Hc, H0.
  change (1 * 1) with 1. rewrite Ha. reflexivity.
Qed.

End Generic.

Section Setup.

Variable M : Libm.
Variable Sup : SupportPkg.

Lemma Copysign_halfPi (l : float) :
  Copysign (Pi * 0.5) l = Pi * 0.5 \/ Copysign (Pi * 0.5) l = - (Pi * 0.5).
Proof.
  unfold Copysign. destruct (Signbit l); [right | left]; reflexivity.
Qed.

(** C10: [NewWintri] never returns an error; the system it leaves has
    [Es = 0]; [lat1] is the parameter [lat_1] in radians, [acos (2/pi)]
    when the parameter is absent, and plus or minus [pi/2] when the
    magnitude of that value exceeds [pi/2]; [cosLat1] is the cosine of
    the final [lat1]. *)
Theorem NewWintri_succeeds (system : System (PS Sup)) :
  exists op,
    NewWintri M Sup system = (setEs system 0, Ok op) /\
    Es (SysEllipsoid (fst (NewWintri M Sup system))) = 0 /\
    OpSystem op = setEs system 0 /\
    cosLat1 op = Cos M (lat1 op) /\
    (snd (GetAsFloat Sup (ProjString system) "lat_1") = false ->
     requestedLat1 M Sup system = Acos M (2.0 / Pi)) /\
    (forall val, GetAsFloat Sup (ProjString system) "lat_1" = (val, true) ->
     requestedLat1 M Sup system = DDToR Sup val) /\
    ((Pi * 0.5 <? Abs (requestedLat1 M Sup system)) = false ->
     lat1 op = requestedLat1 M Sup system) /\
    ((Pi * 0.5 <? Abs (requestedLat1 M Sup system)) = true ->
     lat1 op = Copysign (Pi * 0.5) (requestedLat1 M Sup system) /\
     (lat1 op = Pi * 0.5 \/ lat1 op = - (Pi * 0.5))).
Proof.
  unfold NewWintri, wintriSetup, requestedLat1. cbn [ProjString setEs].
  destruct (GetAsFloat Sup (ProjString system) "lat_1") as [val [|]];
    cbn [snd].
  - destruct (Pi * 0.5 <? Abs (DDToR Sup val)) eqn:Hc;
      eexists; (split; [reflexivity|]); cbn [fst SysEllipsoid Es OpSystem
                                                 lat1 cosLat1];
      (split; [reflexivity|]); (split; [reflexivity|]);
      (split; [reflexivity|]); (split; [discriminate|]);
      (split; [intros v Hv; injection Hv as <-; reflexivity|]);
      (split; [try discriminate; reflexivity|]);
      try discriminate.
    intros _. split; [reflexivity | apply Copysign_halfPi].
  - destruct (Pi * 0.5 <? Abs (Acos M (2.0 / Pi))) eqn:Hc;
      eexists; (split; [reflexivity|]); cbn [fst SysEllipsoid Es OpSystem
                                                 lat1 cosLat1];
      (split; [reflexivity|]); (split; [reflexivity|]);
      (split; [reflexivity|]); (split; [reflexivity|]);
      (split; [discriminate|]);
      (split; [try discriminate; reflexivity|]);
      try discriminate.
    intros _. split; [reflexivity | apply Copysign_halfPi].
Qed.

End Setup.

(** ** Evaluations in the reference environment *)

Import RefEnv Samples.

Lemma NewWintri_default :
  NewWintri RefLibm RefSup (sphereSystem [("proj", "wintri")]%string) =
  (sphereSystem [("proj", "wintri")]%string, Ok wintriDefault).
Proof. reflexivity. Qed.

Lemma NewWintri_polar :
  NewWintri RefLibm RefSup
    (sphereSystem [("proj", "wintri"); ("lat_1", "90")]%string) =
  (sphereSystem [("proj", "wintri"); ("lat_1", "90")]%string,
   Ok wintriPolar).
Proof. reflexivity. Qed.

(** The forward image of (45 degrees, 30 degrees), and its inverse: the
    fifth estimate meets the convergence test. *)
Lemma Forward_sample :
  Forward RefLibm wintriDefault
    {| Lam := RefEnv.ddToR 45; Phi := RefEnv.ddToR 30 |} =
  Ok {| X := 0.60542818778131213; Y := 0.52991467910518786 |}.
Proof. vm_compute. reflexivity. Qed.

Lemma Inverse_iteration_bound_witness :
  (Inverse RefLibm 0 wintriDefault
     {| X := 0.60542818778131213; Y := 0.52991467910518786 |} =
   Some (Ok {| Lam := 0.78539816339744839; Phi := 0.52359877559829893 |})
   /\
   forall d,
     estimate RefLibm (S (4 + d)) 0 wintriDefault
       {| X := 0.60542818778131213; Y := 0.52991467910518786 |} = None)
  /\
  Inverse RefLibm 0 wintriDefault {| X := 1000; Y := 1000 |} =
  Some (Ok {| Lam := 1413.7166941154069; Phi := 900 |}).
Proof.
  split.
  - apply (proj1 (Inverse_iteration_bound RefLibm RefSup 0 wintriDefault
                    {| X := 0.60542818778131213;
                       Y := 0.52991467910518786 |}) 4%nat);
      [ lia | vm_compute; reflexivity | vm_compute; reflexivity ].
  - apply (proj1 (proj2 (Inverse_iteration_bound RefLibm RefSup 0
                           wintriDefault {| X := 1000; Y := 1000 |}))).
    vm_compute; reflexivity.
Defined.

Lemma Inverse_singular_jacobian_witness :
  Inverse RefLibm 0 wintriPolar {| X := 0; Y := 2 |} =
  Some (Err (MError ToleranceCondition (Some jacobian_msg))).
Proof.
  apply (Inverse_singular_jacobian RefLibm RefSup 0 wintriPolar
           {| X := 0; Y := 2 |} 0%nat (Pi * 0.5) 0);
    [ lia | vm_compute; reflexivity .. ].
Defined.

Lemma Inverse_reset_unclamped_witness :
  Inverse RefLibm 0 wintriDefault {| X := 1000; Y := 1000 |} =
  Some (Ok {| Lam := 1000 * 0.9 / cosLat1 wintriDefault;
              Phi := 1000 * 0.9 |}) /\
  (Pi * 0.5 <? 1000 * 0.9) = true /\
  (Pi <? 1000 * 0.9 / cosLat1 wintriDefault) = true.
Proof.
  split; [| split; vm_compute; reflexivity ].
  apply (Inverse_reset_unclamped RefLibm RefSup 0 wintriDefault
           {| X := 1000; Y := 1000 |} 900 1413.7166941154069);
    vm_compute; reflexivity.
Defined.


Lemma NewWintri_succeeds_witness :
  (exists op,
      NewWintri RefLibm RefSup (sphereSystem [("proj", "wintri")]%string) =
      (sphereSystem [("proj", "wintri")]%string, Ok op) /\
      lat1 op = Acos RefLibm (2.0 / Pi)) /\
  (exists op,
      NewWintri RefLibm RefSup
        (sphereSystem [("proj", "wintri"); ("lat_1", "-100")]%string) =
      (sphereSystem [("proj", "wintri"); ("lat_1", "-100")]%string, Ok op)
      /\ lat1 op = - (Pi * 0.5)).
Proof.
  split.
  - destruct (NewWintri_succeeds RefLibm RefSup
                (sphereSystem [("proj", "wintri")]%string))
      as (op & H & _ & _ & _ & Habs & _ & Hin & _).
    exists op. split; [exact H|].
    rewrite <- (Habs eq_refl). apply Hin. vm_compute; reflexivity.
  - destruct (NewWintri_succeeds RefLibm RefSup
                (sphereSystem [("proj", "wintri"); ("lat_1", "-100")]%string))
      as (op & H & _ & _ & _ & _ & _ & _ & Hout).
    exists op. split; [exact H|].
    destruct (Hout eq_refl) as [-> _]. vm_compute; reflexivity.
Defined.

End WintriProps.

(** * Properties of the Lambert Conformal Conic operation *)

Module LCCProps.

Import LCC.

Section Generic.

Variable M : Libm.
Variable Sup : SupportPkg.
Variable op : LCC Sup.

(** [Forward] reads neither [lambda0] nor the offsets. *)
Lemma Forward_withLambda0 (l : float) (lp : CoordLP) :
  Forward M (withLambda0 op l) lp = Forward M op lp.
Proof. reflexivity. Qed.

(** [Inverse] subtracts [lambda0] from the longitude it recovers. *)
Lemma Inverse_withLambda0 (l : float) (xy : CoordXY) :
  Inverse M (withLambda0 op l) xy =
  Ok {| Lam := Atan2 M (X xy) (rho0 op - Y xy) / n op - l;
        Phi := latLoop M 10 op (tPrimeOf M op xy)
                 (latSeed M (tPrimeOf M op xy)) |}.
Proof. reflexivity. Qed.

(** The loop started at estimate [j] ends at an estimate [m]: the one
    after the first [i >= j] at which successive estimates are close, or
    [j + k] when the [k] passes are used up. *)
Lemma latLoop_latSeq (tPrime : float) (k : nat) :
  forall j,
  exists m,
    (j <= m <= j + k)%nat /\
    (0 < k -> j < m)%nat /\
    latLoop M k op tPrime (latSeq M op tPrime j) = latSeq M op tPrime m /\
    (forall i, (j <= i)%nat -> (S i < m)%nat ->
               closeAt M op tPrime i = false) /\
    ((m < j + k)%nat ->
     exists i, m = S i /\ closeAt M op tPrime i = true).
Proof.
  induction k as [|k IH]; intros j.
  - exists j.
    split; [lia|]. split; [lia|]. split; [reflexivity|].
    split; intros; lia.
  - cbn [latLoop].
    change (latNext M op tPrime (latSeq M op tPrime j))
      with (latSeq M op tPrime (S j)).
    destruct (Abs (latSeq M op tPrime (S j) - latSeq M op tPrime j)
              <? LCCIterationEpsilon) eqn:Hc.
    + exists (S j).
      split; [lia|]. split; [lia|]. split; [reflexivity|].
      split; [intros; lia|].
      intros _. exists j. split; [reflexivity | exact Hc].
    + destruct (IH (S j)) as (m & Hm & _ & Heq & Hfar & Hnear).
      exists m.
      split; [lia|]. split; [lia|]. split; [exact Heq|].
      split.
      * intros i H1 H2.
        destruct (Nat.eq_dec i j) as [-> | Hne]; [exact Hc|].
        apply Hfar; lia.
      * intros Hlt. apply Hnear. lia.
Qed.

(** C8: the LCC inverse never fails; its latitude is one of the
    estimates [latSeq 1 .. latSeq 10] of the fixed-point iteration that
    starts from the spherical approximation [pi/2 - 2 atan t'] and applies
    the ellipsoidal correction: the estimate after the first pair of
    successive estimates that differ by less than 1e-18, or the tenth when
    there is none within 10 passes. *)
Theorem Inverse_latitude_iteration (xy : CoordXY) :
  let t := tPrimeOf M op xy in
  latSeq M op t 0 = Pi / 2.0 - 2 * Atan M t /\
  (forall k, latSeq M op t (S k) =
             Pi / 2.0 -
             2 * Atan M (t * Pow M ((1.0 - ecc op * Sin M (latSeq M op t k)) /
                                    (1.0 + ecc op * Sin M (latSeq M op t k)))
                                   (ecc op / 2.0))) /\
  exists m,
    (1 <= m <= 10)%nat /\
    Inverse M op xy =
    Ok {| Lam := Atan2 M (X xy) (rho0 op - Y xy) / n op - lambda0 op;
          Phi := latSeq M op t m |} /\
    (forall i, (S i < m)%nat -> closeAt M op t i = false) /\
    ((m < 10)%nat -> exists i, m = S i /\ closeAt M op t i = true).
Proof.
  cbv zeta. split; [reflexivity|]. split; [reflexivity|].
  destruct (latLoop_latSeq (tPrimeOf M op xy) 10 0)
    as (m & Hm & Hpos & Heq & Hfar & Hnear).
  exists m. split; [lia|]. split.
  - unfold Inverse. cbn [latSeq] in Heq. now rewrite Heq.
  - split; [intros i Hi; apply Hfar; lia | exact Hnear].
Qed.

End Generic.

(** ** Evaluations in the reference environment *)

Import RefEnv Samples.

(** C1 (failing input): with a longitude of origin of 10 degrees the
    round trip of (2 degrees, 1 degree) comes back 10 degrees off. *)
Theorem roundTrip_lon0_off :
  exists lp',
    lccRoundTrip lccLon10 {| Lam := ddToR 2; Phi := ddToR 1 |} = Ok lp' /\
    Lam lp' = ddToR (-8) /\
    (1e-6 <? Abs (Lam lp' - ddToR 2)) = true.
Proof.
  eexists. split; [vm_compute; reflexivity|].
  split; vm_compute; reflexivity.
Qed.

(** With the longitude of origin at zero the same round trip is exact to
    1e-15 in longitude and 1e-14 in latitude. *)
Lemma roundTrip_lon0_zero :
  exists lp',
    lccRoundTrip lccHalf {| Lam := ddToR 2; Phi := ddToR 1 |} = Ok lp' /\
    (Abs (Lam lp' - ddToR 2) <? 1e-15) = true /\
    (Abs (Phi lp' - ddToR 1) <? 1e-14) = true.
Proof.
  eexists. split; [vm_compute; reflexivity|].
  split; vm_compute; reflexivity.
Qed.

(** The literal scenario: [LCC.Forward] returns coordinates in units of
    the semi-major axis; scaled by it, they are the values of the test
    data for [lat_1 = 0.5], and more than 16 m away in x for
    [lat_1 = 0]. *)
Lemma Forward_literal :
  exists xyHalf xyZero,
    lccForward lccHalf {| Lam := ddToR 2; Phi := ddToR 1 |} = Ok xyHalf /\
    lccForward lccZero {| Lam := ddToR 2; Phi := ddToR 1 |} = Ok xyZero /\
    (Abs (X xyHalf) <? 1) = true /\
    (Abs (grs80A * X xyHalf - 222588.44) <? 0.1) = true /\
    (Abs (grs80A * Y xyHalf - 110660.53) <? 0.1) = true /\
    (16 <? Abs (grs80A * X xyZero - 222588.44)) = true.
Proof.
  eexists. eexists.
  split; [vm_compute; reflexivity|].
  split; [vm_compute; reflexivity|].
  repeat (split; [vm_compute; reflexivity|]).
  vm_compute; reflexivity.
Qed.

End LCCProps.

(** * Properties of the conversion facade *)

Module FacadeProps.

Import Facade.

Section Generic.

Variable Sup : SupportPkg.
Variable Core : CorePkg Sup.


Lemma Convert_geographic (proj4 : string) (input : list float) :
  isGeographicSystem Sup proj4 = true ->
  Convert Sup Core proj4 input = Some (Ok input).
Proof. unfold Convert. now intros ->. Qed.



(** C4 (what the code does): [Convert] returns the array unchanged for
    a geographic definition, of any length; [Inverse] has no such case:
    it builds the conversion like for any other definition and returns
    the error of the construction when there is one. *)
Theorem Inverse_no_geographic_case (proj4 : string) (input : list float)
  (e : error) :
  isGeographicSystem Sup proj4 = true ->
  newConversion Sup Core proj4 = Err e ->
  Convert Sup Core proj4 input = Some (Ok input) /\
  Inverse Sup Core proj4 input = Some (Err e).
Proof.
  intros Hg He. split; [now apply Convert_geographic|].
  unfold Inverse. now rewrite He.
Qed.

End Generic.

(** ** Evaluations in the reference environment *)

Import RefEnv Samples.
Local Open Scope string_scope.

Lemma newConversion_unit :
  newConversion RefSup RefCore "+proj=wintri +a=1" = Ok unitConversion.
Proof. reflexivity. Qed.


Lemma newConversion_longlat :
  newConversion RefSup RefCore "+proj=longlat" =
  Err errUnsupportedProjection.
Proof. reflexivity. Qed.



Lemma Inverse_no_geographic_case_witness :
  Convert RefSup RefCore "+proj=longlat" [1; 2]%float =
  Some (Ok [1; 2]%float) /\
  Inverse RefSup RefCore "+proj=longlat" [1; 2]%float =
  Some (Err errUnsupportedProjection).
Proof.
  apply (Inverse_no_geographic_case RefSup RefCore "+proj=longlat");
    [reflexivity | exact newConversion_longlat].
Defined.

End FacadeProps.

(** * Further properties *)

(** ** Facts of IEEE arithmetic, from the specification of the primitive
       floats *)

Module FloatFacts.

Lemma eqb_infinity (z : float) : (z =? infinity) = true -> z = infinity.
Proof.
  rewrite FloatAxioms.eqb_spec. intros H.
  rewrite <- (SF2Prim_Prim2SF z).
  destruct (Prim2SF z) as [s | s | | s m e]; try discriminate H.
  destruct s; [discriminate H | reflexivity].
Qed.



Lemma ltb_nan_r (t : float) : (t <? nan) = false.
Proof.
  rewrite ltb_spec. change (Prim2SF nan) with S754_nan.
  destruct (Prim2SF t); reflexivity.
Qed.

End FloatFacts.

Module WintriMore.

Import Wintri FloatFacts Notions.

Lemma clampPhi_clamped (phi : float) : latClamped (clampPhi phi).
Proof.
  unfold latClamped, clampPhi.
  destruct (Pi * 0.5 <? phi) eqn:H1; [split; reflexivity|].
  destruct (phi <? - Pi * 0.5) eqn:H2; [split; reflexivity|].
  split; assumption.
Qed.

Lemma clampLam_clamped (lam : float) :
  (Pi <? clampLam lam) = false /\ (clampLam lam <? - Pi) = false.
Proof.
  unfold clampLam.
  destruct (Pi <? lam) eqn:H1; [split; reflexivity|].
  destruct (lam <? - Pi) eqn:H2; [split; reflexivity|].
  split; assumption.
Qed.

Lemma wrapDown_not_above (fuel : nat) :
  forall lam l, wrapDown fuel lam = Some l -> (Pi <? l) = false.
Proof.
  induction fuel as [|fuel IH]; intros lam l; cbn [wrapDown];
    destruct (Pi <? lam) eqn:H; try discriminate.
  - intros E; injection E as <-; exact H.
  - apply IH.
  - intros E; injection E as <-; exact H.
Qed.

Lemma wrapUp_not_below (fuel : nat) :
  forall lam l, wrapUp fuel lam = Some l -> (l <? - Pi) = false.
Proof.
  induction fuel as [|fuel IH]; intros lam l; cbn [wrapUp];
    destruct (lam <? - Pi) eqn:H; try discriminate.
  - intros E; injection E as <-; exact H.
  - apply IH.
  - intros E; injection E as <-; exact H.
Qed.

Lemma wrapDown_in_range (fuel : nat) (lam : float) :
  (Pi <? lam) = false -> wrapDown fuel lam = Some lam.
Proof. intros H. destruct fuel; cbn [wrapDown]; now rewrite H. Qed.

Lemma wrapUp_in_range (fuel : nat) (lam : float) :
  (lam <? - Pi) = false -> wrapUp fuel lam = Some lam.
Proof. intros H. destruct fuel; cbn [wrapUp]; now rewrite H. Qed.

Lemma wrapLam_not_below (fuel : nat) (lam l : float) :
  wrapLam fuel lam = Some l -> (l <? - Pi) = false.
Proof.
  unfold wrapLam. destruct (wrapDown fuel lam); [|discriminate].
  apply wrapUp_not_below.
Qed.

Section Generic.

Variable M : Libm.
Variable Sup : SupportPkg.
Variable fuel : nat.
Variable op : Wintri Sup.

(** X1: the seed of the Winkel Tripel inverse is clamped: its latitude
    is neither above [pi/2] nor below [-pi/2], its longitude neither
    above [pi] nor below [-pi], whatever the target and the operation
    (a NaN seed passes every comparison). *)
Theorem seed_clamped (xy : CoordXY) :
  (Pi * 0.5 <? seedPhi xy) = false /\
  (seedPhi xy <? - Pi * 0.5) = false /\
  (Pi <? seedLam op xy) = false /\
  (seedLam op xy <? - Pi) = false.
Proof.
  destruct (clampPhi_clamped (Y xy)) as [H1 H2].
  destruct (clampLam_clamped (X xy / cosLat1 op)) as [H3 H4].
  unfold seedPhi, seedLam. auto.
Qed.

Lemma body_continue (xy : CoordXY) (phi lam p l : float) :
  body M fuel op (X xy) (Y xy) phi lam = Some (Continue p l) ->
  clampedOrReset op xy p l.
Proof.
  rewrite WintriProps.body_unfold.
  destruct (residual M op (X xy) (Y xy) phi lam) as [dx dy].
  destruct (converged dx dy); [discriminate|].
  destruct (diverged dx dy).
  - intros E; injection E as <- <-. right; split; reflexivity.
  - destruct (Abs (det (jacobianAt M op phi lam)) <? 1e-15);
      [discriminate|].
    unfold newton.
    destruct (wrapLam fuel _) as [l'|] eqn:Hw; [|discriminate].
    intros E; injection E as <- <-. left. split.
    + apply clampPhi_clamped.
    + exact (wrapLam_not_below _ _ _ Hw).
Qed.

Lemma estimateAfter_invariant (xy : CoordXY) (k : nat) :
  forall phi lam p l,
    clampedOrReset op xy phi lam ->
    estimateAfter M k fuel op (X xy) (Y xy) phi lam = Some (p, l) ->
    clampedOrReset op xy p l.
Proof.
  induction k as [|k IH]; intros phi lam p l Hi; cbn [estimateAfter].
  - intros E; injection E as <- <-; exact Hi.
  - destruct (body M fuel op (X xy) (Y xy) phi lam)
      as [[| phi' lam' | e]|] eqn:Hb; try discriminate.
    apply IH. exact (body_continue _ _ _ _ _ Hb).
Qed.

(** X2: every estimate of the Winkel Tripel inverse, and the
    coordinate it returns, either has its latitude within the clamp and a
    longitude not below [-pi], or is exactly the value of the divergence
    reset, [(0.9 y, 0.9 x / cosLat1)], which is neither clamped nor
    wrapped. *)
Theorem Inverse_clamped_or_reset (xy : CoordXY) :
  (forall k phi lam,
      estimate M k fuel op xy = Some (phi, lam) ->
      clampedOrReset op xy phi lam) /\
  (forall lp,
      Inverse M fuel op xy = Some (Ok lp) ->
      clampedOrReset op xy (Phi lp) (Lam lp)).
Proof.
  assert (Hseed : clampedOrReset op xy (seedPhi xy) (seedLam op xy)).
  { destruct (seed_clamped xy) as (H1 & H2 & _ & H4).
    left. repeat split; assumption. }
  assert (Hest : forall k phi lam,
             estimate M k fuel op xy = Some (phi, lam) ->
             clampedOrReset op xy phi lam).
  { intros k phi lam. unfold estimate.
    apply estimateAfter_invariant. exact Hseed. }
  split; [exact Hest|].
  intros lp H. unfold Inverse in H.
  destruct (WintriProps.loop_inv M Sup fuel op _ _ _ _ _ _ H)
    as (k & phi & lam & _ & He & Hr).
  assert (lp = {| Lam := lam; Phi := phi |}) as ->.
  { destruct Hr as [[_ E] | [(_ & _ & E) | (_ & e & _ & E)]];
      [injection E as ->; reflexivity
      | injection E as ->; reflexivity | discriminate E]. }
  exact (Hest _ _ _ He).
Qed.

(** X3: the finite-difference step of the Jacobian is never below
    [1e-8] and never above [1e-6], whatever the estimate (it is NaN when
    the estimate is). *)
Theorem stepDelta_bounds (phi lam : float) :
  (stepDelta phi lam <? 1e-8) = false /\
  (1e-6 <? stepDelta phi lam) = false.
Proof.
  unfold stepDelta.
  set (z := Max (Abs phi) (Abs lam) * 1e-8).
  assert (Hw : (1e-6 <? Min 1e-6 z) = false /\
               (Min 1e-6 z =? infinity) = false).
  { unfold Min, IsInf, IsNaN.
    change (1e-6 =? neg_infinity) with false.
    change (1e-6 =? 1e-6) with true.
    change (1e-6 =? 0) with false. cbn [orb andb negb].
    destruct (z =? neg_infinity); [split; reflexivity|].
    destruct (z =? z); cbn [negb]; [|split; reflexivity].
    destruct (1e-6 <? z) eqn:H1; [split; reflexivity|].
    split; [exact H1|].
    destruct (z =? infinity) eqn:H2; [|reflexivity].
    rewrite (eqb_infinity _ H2) in H1. discriminate H1. }
  destruct Hw as [Hw1 Hw2]. revert Hw1 Hw2.
  generalize (Min 1e-6 z). intros w Hw1 Hw2.
  unfold Max, IsInf, IsNaN. rewrite Hw2.
  change (1e-8 =? infinity) with false.
  change (1e-8 =? 1e-8) with true.
  change (1e-8 =? 0) with false. cbn [orb andb negb].
  destruct (w =? w); cbn [negb]; [|split; reflexivity].
  destruct (w <? 1e-8) eqn:H1; [split; reflexivity|].
  split; assumption.
Qed.

(** X4: a latitude and a longitude that are within the ranges are left
    as they are by the clamps and by the wrap, and the wrap loops make no
    pass (no fuel is needed). *)
Theorem in_range_unchanged (phi lam : float) :
  (Pi * 0.5 <? phi) = false -> (phi <? - Pi * 0.5) = false ->
  (Pi <? lam) = false -> (lam <? - Pi) = false ->
  clampPhi phi = phi /\ clampLam lam = lam /\
  wrapLam fuel lam = Some lam.
Proof.
  intros H1 H2 H3 H4. unfold clampPhi, clampLam, wrapLam.
  rewrite H1, H2, H3, H4, (wrapDown_in_range _ _ H3).
  rewrite (wrapUp_in_range _ _ H4). auto.
Qed.




End Generic.

Import RefEnv Samples.



Lemma in_range_unchanged_witness :
  clampPhi 1 = 1 /\ clampLam 3 = 3 /\ wrapLam 0 3 = Some 3.
Proof.
  apply (in_range_unchanged 0 1 3); reflexivity.
Defined.

End WintriMore.

Module LCCMore.

Import LCC Notions.

Section Generic.

Variable M : Libm.
Variable Sup : SupportPkg.

(** X6: [NewLCC] fails, with [InvalidArg], exactly when one of
    [lat_0], [lat_1], [lon_0] is absent; otherwise it returns an operation
    on the given system whose angles are the parameters in radians,
    [lat_2] defaulting to [lat_1], and whose offsets are [x_0] and [y_0],
    defaulting to 0 and taken as they are. *)
Theorem NewLCC_required_parameters (system : System (PS Sup)) :
  (required system = false ->
   NewLCC M Sup system = Err (MError InvalidArg None)) /\
  (required system = true ->
   exists op,
     NewLCC M Sup system = Ok op /\
     OpSystem op = system /\
     phi0 op = DDToR Sup (fst (param system "lat_0")) /\
     phi1 op = DDToR Sup (fst (param system "lat_1")) /\
     phi2 op =
     DDToR Sup (paramOr system "lat_2" (fst (param system "lat_1"))) /\
     lambda0 op = DDToR Sup (fst (param system "lon_0")) /\
     x0 op = paramOr system "x_0" 0 /\
     y0 op = paramOr system "y_0" 0).
Proof.
  unfold required, paramOr, param, NewLCC, lccSetup.
  destruct (GetAsFloat Sup (ProjString system) "lat_0") as [v0 [|]];
    cbn [fst snd andb]; [|split; [reflexivity | discriminate]].
  destruct (GetAsFloat Sup (ProjString system) "lat_1") as [v1 [|]];
    cbn [fst snd andb]; [|split; [reflexivity | discriminate]].
  destruct (GetAsFloat Sup (ProjString system) "lon_0") as [vl [|]];
    cbn [fst snd andb]; [|split; [reflexivity | discriminate]].
  split; [discriminate|]. intros _.
  destruct (GetAsFloat Sup (ProjString system) "lat_2") as [v2 [|]];
    destruct (GetAsFloat Sup (ProjString system) "x_0") as [vx [|]];
    destruct (GetAsFloat Sup (ProjString system) "y_0") as [vy [|]];
    cbn [fst snd]; eexists; (split; [reflexivity|]);
    cbn [OpSystem phi0 phi1 phi2 lambda0 x0 y0]; repeat split.
Qed.

(** X7: on the latitude of origin the forward LCC projection has the
    radius [rho0]: a point [(lam, phi0)] is mapped to
    [(rho0 sin (n lam), rho0 - rho0 cos (n lam))]. *)
Theorem NewLCC_origin_radius (system : System (PS Sup)) (op : LCC Sup)
  (lam : float) :
  NewLCC M Sup system = Ok op ->
  Forward M op {| Lam := lam; Phi := phi0 op |} =
  Ok {| X := rho0 op * Sin M (n op * lam);
        Y := rho0 op - rho0 op * Cos M (n op * lam) |}.
Proof.
  unfold NewLCC, lccSetup.
  destruct (GetAsFloat Sup (ProjString system) "lat_0") as [v0 [|]];
    [|discriminate].
  destruct (GetAsFloat Sup (ProjString system) "lat_1") as [v1 [|]];
    [|discriminate].
  destruct (GetAsFloat Sup (ProjString system) "lon_0") as [vl [|]];
    [|discriminate].
  intros H; injection H as <-. reflexivity.
Qed.

(** X8: without [lat_2] the second standard parallel equals the first
    and the cone constant is the quotient of two logarithms of a number
    divided by itself; there is no tangent-cone case, so that with
    [log 1 = 0] the constant is [0 / 0], a NaN. *)
Theorem NewLCC_single_parallel (system : System (PS Sup)) (op : LCC Sup) :
  NewLCC M Sup system = Ok op ->
  snd (param system "lat_2") = false ->
  let m1 := Msfn Sup (Sin M (phi1 op)) (Cos M (phi1 op))
              (Es (SysEllipsoid system)) in
  let t1 := Tsfn Sup (phi1 op) (Sin M (phi1 op))
              (E (SysEllipsoid system)) in
  phi2 op = phi1 op /\
  n op = Log M (m1 / m1) / Log M (t1 / t1) /\
  (m1 / m1 = 1 -> t1 / t1 = 1 -> Log M 1 = 0 -> n op = nan).
Proof.
  unfold NewLCC, lccSetup, param.
  destruct (GetAsFloat Sup (ProjString system) "lat_0") as [v0 [|]];
    [|discriminate].
  destruct (GetAsFloat Sup (ProjString system) "lat_1") as [v1 [|]];
    [|discriminate].
  destruct (GetAsFloat Sup (ProjString system) "lat_2") as [v2 [|]];
    cbn [snd].
  { destruct (GetAsFloat Sup (ProjString system) "lon_0") as [vl [|]];
      discriminate. }
  destruct (GetAsFloat Sup (ProjString system) "lon_0") as [vl [|]];
    [|discriminate].
  intros H _; injection H as <-. cbn [phi1 phi2 n].
  split; [reflexivity|]. split; [reflexivity|].
  intros -> -> ->. reflexivity.
Qed.

Variable op : LCC Sup.

(** X9: the false easting and northing are stored but never applied:
    neither [Forward] nor [Inverse] depends on [x0] and [y0]; [Forward]
    does not depend on the longitude of origin either. *)
Theorem offsets_never_applied (l x y : float) (lp : CoordLP)
  (xy : CoordXY) :
  Forward M (withLambda0 (withOffsets op x y) l) lp = Forward M op lp /\
  Inverse M (withOffsets op x y) xy = Inverse M op xy.
Proof. split; reflexivity. Qed.

End Generic.

Import RefEnv Samples.

Lemma NewLCC_half : NewLCC RefLibm RefSup lccHalfSystem = Ok lccHalfOp.
Proof. reflexivity. Qed.

Lemma NewLCC_single : NewLCC RefLibm RefSup lccSingleSystem = Ok lccSingleOp.
Proof. reflexivity. Qed.

Lemma lccSystem_single : lccSystem lccSingle = Ok lccSingleSystem.
Proof. reflexivity. Qed.

Lemma NewLCC_origin_radius_witness :
  Forward RefLibm lccHalfOp {| Lam := 0; Phi := phi0 lccHalfOp |} =
  Ok {| X := rho0 lccHalfOp * Sin RefLibm (n lccHalfOp * 0);
        Y := rho0 lccHalfOp -
             rho0 lccHalfOp * Cos RefLibm (n lccHalfOp * 0) |}.
Proof.
  exact (NewLCC_origin_radius RefLibm RefSup lccHalfSystem lccHalfOp 0
           NewLCC_half).
Defined.

Lemma single_parallel_quotients :
  let m1 := Msfn RefSup (Sin RefLibm (phi1 lccSingleOp))
              (Cos RefLibm (phi1 lccSingleOp)) (Es grs80) in
  let t1 := Tsfn RefSup (phi1 lccSingleOp) (Sin RefLibm (phi1 lccSingleOp))
              (E grs80) in
  m1 / m1 = 1 /\ t1 / t1 = 1 /\ Log RefLibm 1 = 0.
Proof. vm_compute. split; [reflexivity|]. split; reflexivity. Qed.

Lemma NewLCC_single_parallel_witness :
  phi2 lccSingleOp = phi1 lccSingleOp /\ n lccSingleOp = nan.
Proof.
  pose proof (NewLCC_single_parallel RefLibm RefSup lccSingleSystem
                lccSingleOp NewLCC_single eq_refl) as H.
  cbv zeta in H. destruct H as (H1 & _ & H3).
  destruct single_parallel_quotients as (Hm & Ht & Hl).
  split; [exact H1 | exact (H3 Hm Ht Hl)].
Defined.

End LCCMore.

Module FacadeMore.

Import Facade Notions.

(** Induction over a list two elements at a time. *)
Lemma pair_ind {A : Type} (P : list A -> Prop) :
  P [] -> (forall x, P [x]) ->
  (forall x y l, P l -> P (x :: y :: l)) ->
  forall l, P l.
Proof.
  intros H0 H1 H2.
  refine (fix IH (l : list A) : P l :=
            match l with
            | [] => H0
            | [x] => H1 x
            | x :: y :: l' => H2 x y l' (IH l')
            end).
Qed.

Section Generic.

Variable Sup : SupportPkg.
Variable Core : CorePkg Sup.

Lemma convertPairs_length (c : IConvertLPToXY) (input : list float) :
  forall out,
    Nat.even (List.length input) = true ->
    convertPairs Sup c input = Some (Ok out) ->
    List.length out = List.length input.
Proof.
  induction input as [| x | lon lat rest IH] using pair_ind; intros out He.
  - intros H; injection H as <-; reflexivity.
  - discriminate He.
  - cbn [convertPairs].
    destruct (cForward c _) as [[xy|e]|]; try discriminate.
    destruct (convertPairs Sup c rest) as [[o|e]|]; try discriminate.
    intros H; injection H as <-. cbn [List.length]. f_equal. f_equal.
    apply IH; [exact He | reflexivity].
Qed.

Lemma inversePairs_length (c : IConvertLPToXY) (input : list float) :
  forall out,
    Nat.even (List.length input) = true ->
    inversePairs Sup c input = Some (Ok out) ->
    List.length out = List.length input.
Proof.
  induction input as [| x | x y rest IH] using pair_ind; intros out He.
  - intros H; injection H as <-; reflexivity.
  - discriminate He.
  - cbn [inversePairs].
    destruct (cInverse c _) as [[lp|e]|]; try discriminate.
    destruct (inversePairs Sup c rest) as [[o|e]|]; try discriminate.
    intros H; injection H as <-. cbn [List.length]. f_equal. f_equal.
    apply IH; [exact He | reflexivity].
Qed.

Lemma even_of_not_odd (k : nat) : Nat.odd k = false -> Nat.even k = true.
Proof. unfold Nat.odd. now destruct (Nat.even k). Qed.

(** X10: whenever [Convert] or [Inverse] returns an array, it has the
    length of the input: one output pair for each input pair. *)
Theorem output_length (proj4 : string) (input out : list float) :
  (Convert Sup Core proj4 input = Some (Ok out) ->
   List.length out = List.length input) /\
  (Inverse Sup Core proj4 input = Some (Ok out) ->
   List.length out = List.length input).
Proof.
  split.
  - unfold Convert.
    destruct (isGeographicSystem Sup proj4).
    + intros H; injection H as <-; reflexivity.
    + destruct (newConversion Sup Core proj4) as [conv|e];
        [|discriminate].
      unfold convert. destruct (converter Sup conv) as [c|];
        [|discriminate].
      destruct (Nat.odd (List.length input)) eqn:Ho; [discriminate|].
      apply convertPairs_length, even_of_not_odd, Ho.
  - unfold Inverse.
    destruct (newConversion Sup Core proj4) as [conv|e]; [|discriminate].
    unfold inverse. destruct (converter Sup conv) as [c|]; [|discriminate].
    destruct (Nat.odd (List.length input)) eqn:Ho; [discriminate|].
    apply inversePairs_length, even_of_not_odd, Ho.
Qed.

Lemma convertPairs_app (c : IConvertLPToXY) (a b : list float) :
  Nat.even (List.length a) = true ->
  convertPairs Sup c (a ++ b) =
  andThen (convertPairs Sup c a) (convertPairs Sup c b).
Proof.
  induction a as [| x | lon lat rest IH] using pair_ind; intros He.
  - cbn. destruct (convertPairs Sup c b) as [[o|e]|]; reflexivity.
  - discriminate He.
  - cbn [convertPairs app].
    destruct (cForward c _) as [[xy|e]|]; try reflexivity.
    rewrite (IH He).
    destruct (convertPairs Sup c rest) as [[o|e]|]; try reflexivity.
    cbn [andThen].
    destruct (convertPairs Sup c b) as [[o'|e]|]; reflexivity.
Qed.

Lemma inversePairs_app (c : IConvertLPToXY) (a b : list float) :
  Nat.even (List.length a) = true ->
  inversePairs Sup c (a ++ b) =
  andThen (inversePairs Sup c a) (inversePairs Sup c b).
Proof.
  induction a as [| x | x y rest IH] using pair_ind; intros He.
  - cbn. destruct (inversePairs Sup c b) as [[o|e]|]; reflexivity.
  - discriminate He.
  - cbn [inversePairs app].
    destruct (cInverse c _) as [[lp|e]|]; try reflexivity.
    rewrite (IH He).
    destruct (inversePairs Sup c rest) as [[o|e]|]; try reflexivity.
    cbn [andThen].
    destruct (inversePairs Sup c b) as [[o'|e]|]; reflexivity.
Qed.

Lemma odd_app_even (a b : list float) :
  Nat.even (List.length a) = true -> Nat.even (List.length b) = true ->
  Nat.odd (List.length (a ++ b)) = false /\
  Nat.odd (List.length a) = false /\ Nat.odd (List.length b) = false.
Proof.
  intros Ha Hb. rewrite length_app. unfold Nat.odd.
  rewrite Nat.even_add, Ha, Hb. auto.
Qed.

(** X11: the points are converted independently and in order: for two
    arrays of even length, converting them joined is converting each and
    joining the outputs, the first failure ending the call. *)
Theorem batches_compose (proj4 : string) (a b : list float) :
  Nat.even (List.length a) = true ->
  Nat.even (List.length b) = true ->
  Convert Sup Core proj4 (a ++ b) =
  andThen (Convert Sup Core proj4 a) (Convert Sup Core proj4 b) /\
  Inverse Sup Core proj4 (a ++ b) =
  andThen (Inverse Sup Core proj4 a) (Inverse Sup Core proj4 b).
Proof.
  intros Ha Hb.
  destruct (odd_app_even a b Ha Hb) as (Hab & Hoa & Hob).
  split.
  - unfold Convert.
    destruct (isGeographicSystem Sup proj4); [reflexivity|].
    destruct (newConversion Sup Core proj4) as [conv|e]; [|reflexivity].
    unfold convert. destruct (converter Sup conv) as [c|]; [|reflexivity].
    rewrite Hab, Hoa, Hob. now apply convertPairs_app.
  - unfold Inverse.
    destruct (newConversion Sup Core proj4) as [conv|e]; [|reflexivity].
    unfold inverse. destruct (converter Sup conv) as [c|]; [|reflexivity].
    rewrite Hab, Hoa, Hob. now apply inversePairs_app.
Qed.

(** X12: the units at the facade: [Convert] turns the input degrees
    into radians before [Forward] and returns the projected coordinate as
    it is; [Inverse] passes the input as it is and turns the radians that
    the operation's [Inverse] returns into degrees. *)
Theorem one_pair (proj4 : string) (conv : conversion Sup)
  (u v : float) :
  newConversion Sup Core proj4 = Ok conv ->
  isGeographicSystem Sup proj4 = false ->
  Convert Sup Core proj4 [u; v] =
  forwardPair Sup (asConvertLPToXY (operation Sup conv)) u v /\
  Inverse Sup Core proj4 [u; v] =
  inversePair Sup (asConvertLPToXY (operation Sup conv)) u v.
Proof.
  intros Hc Hg. unfold Convert, Inverse, forwardPair, inversePair.
  rewrite Hg, Hc.
  revert Hc. unfold newConversion.
  destruct (NewProjString Sup proj4) as [ps|e]; [|discriminate].
  destruct (NewSystem Core ps) as [[sys opx]|e]; [|discriminate].
  destruct (IsConvertLPToXY opx); cbn [negb]; [|discriminate].
  intros H; injection H as <-.
  unfold convert, inverse; cbn [converter operation List.length Nat.odd
                                 Nat.even negb convertPairs inversePairs].
  split.
  - destruct (cForward _ _) as [[xy|e]|]; reflexivity.
  - destruct (cInverse _ _) as [[lp|e]|]; reflexivity.
Qed.

(** X13: the errors of the construction: a definition that does not
    parse gives the parser's error from both entry points (it is not
    geographic); an error of the system construction is returned as it is;
    an operation that does not convert between LP and XY gives
    [errNotSupportedType]. *)
Theorem construction_errors (proj4 : string) (input : list float) :
  (forall e,
      NewProjString Sup proj4 = Err e ->
      Convert Sup Core proj4 input = Some (Err e) /\
      Inverse Sup Core proj4 input = Some (Err e)) /\
  (forall ps e,
      NewProjString Sup proj4 = Ok ps ->
      NewSystem Core ps = Err e ->
      Inverse Sup Core proj4 input = Some (Err e) /\
      (isGeographicSystem Sup proj4 = false ->
       Convert Sup Core proj4 input = Some (Err e))) /\
  (forall ps sys opx,
      NewProjString Sup proj4 = Ok ps ->
      NewSystem Core ps = Ok (sys, opx) ->
      IsConvertLPToXY opx = false ->
      Inverse Sup Core proj4 input = Some (Err errNotSupportedType) /\
      (isGeographicSystem Sup proj4 = false ->
       Convert Sup Core proj4 input = Some (Err errNotSupportedType))).
Proof.
  unfold Convert, Inverse, isGeographicSystem, newConversion.
  split; [|split].
  - intros e ->. auto.
  - intros ps e -> ->. split; [reflexivity|]. now intros ->.
  - intros ps sys opx -> -> ->. split; [reflexivity|]. now intros ->.
Qed.

End Generic.

Import RefEnv Samples.
Local Open Scope string_scope.

Lemma batches_compose_witness :
  Convert RefSup RefCore "+proj=wintri +a=1" ([45; 30] ++ [10; 20]) =
  andThen (Convert RefSup RefCore "+proj=wintri +a=1" [45; 30])
          (Convert RefSup RefCore "+proj=wintri +a=1" [10; 20]) /\
  Inverse RefSup RefCore "+proj=wintri +a=1" ([45; 30] ++ [10; 20]) =
  andThen (Inverse RefSup RefCore "+proj=wintri +a=1" [45; 30])
          (Inverse RefSup RefCore "+proj=wintri +a=1" [10; 20]).
Proof.
  exact (batches_compose RefSup RefCore "+proj=wintri +a=1"
           [45; 30] [10; 20] eq_refl eq_refl).
Defined.

Lemma unit_not_geographic :
  isGeographicSystem RefSup "+proj=wintri +a=1" = false.
Proof. reflexivity. Qed.

Lemma one_pair_witness :
  Convert RefSup RefCore "+proj=wintri +a=1" [45; 30] =
  forwardPair RefSup
    (asConvertLPToXY (operation RefSup unitConversion)) 45 30 /\
  Inverse RefSup RefCore "+proj=wintri +a=1" [45; 30] =
  inversePair RefSup
    (asConvertLPToXY (operation RefSup unitConversion)) 45 30.
Proof.
  exact (one_pair RefSup RefCore "+proj=wintri +a=1" unitConversion 45 30
           FacadeProps.newConversion_unit unit_not_geographic).
Defined.

End FacadeMore.
